(** * Call-Me-Reminder: a shallow embedding of the reminder form, the reminder
    card and the delivery engine, with the properties the specification states
    about them.

    Layout
    - [JsString]   JavaScript strings as sequences of UTF-16 code units, with the
                   [String.prototype] methods the components call.
    - [Form]       [reminder-form.tsx]: phone formatting, validation, submit.
    - [Card]       [reminder-card.tsx] and the list query of [reminder-list.tsx].
    - [Engine]     the scheduling and delivery engine (backend/scheduler.py),
                   which is not among the sources and is modelled from the
                   specification's sections 3, 4 and 7. *)

From Stdlib Require Import ZArith NArith Lia Bool.
From Stdlib Require Import Strings.String Strings.Ascii.
From stdpp Require Import base list gmap sorting.

Local Open Scope Z_scope.

(* ===================================================================== *)
(** ** JavaScript strings                                                  *)
(* ===================================================================== *)

Module JsString.

(** A JavaScript string is a finite sequence of UTF-16 code units. *)
Abbreviation char16 := N (only parsing).
Abbreviation jsstring := (list N) (only parsing).

(** An ASCII literal as a JavaScript string. *)
Definition js (s : string) : jsstring :=
  List.map N_of_ascii (list_ascii_of_string s).
Arguments js s%_string.

(** [\d] without the [u] flag: the ten ASCII digits. *)
Definition isDigit (c : char16) : bool := ((48 <=? c) && (c <=? 57))%N.

(** [\D]: every other code unit. *)
Definition isNonDigit (c : char16) : bool := negb (isDigit c).

(** [s.replace(/\D/g, "")]: every non-digit code unit is deleted. *)
Definition stripNonDigits (s : jsstring) : jsstring :=
  List.filter (fun c => negb (isNonDigit c)) s.

(** Relative index resolution shared by [slice]'s two arguments: a negative
    index counts from the end, and the result is clamped to [0, len]. *)
Definition clampIndex (len i : Z) : Z :=
  if i <? 0 then Z.max (len + i) 0 else Z.min i len.

(** [s.slice(start, end)]. *)
Definition slice (s : jsstring) (start end_ : Z) : jsstring :=
  let len := Z.of_nat (length s) in
  let from := clampIndex len start in
  let to := clampIndex len end_ in
  take (Z.to_nat (to - from)) (drop (Z.to_nat from) s).

(** [s.slice(start)]: the end defaults to the length. *)
Definition sliceFrom (s : jsstring) (start : Z) : jsstring :=
  slice s start (Z.of_nat (length s)).

(** [s.endsWith(t)]. *)
Definition endsWith (s t : jsstring) : bool :=
  bool_decide (drop (length s - length t)%nat s = t).

(** [s.includes(t)]: [t] occurs in [s] at some position [k]. *)
Definition includes (s t : jsstring) : bool :=
  existsb (fun k => bool_decide (take (length t) (drop k s) = t))
          (seq 0 (S (length s))).

(** WhiteSpace and LineTerminator code units, the ones [trim] removes. *)
Definition isWhiteSpace (c : char16) : bool :=
  ((9 <=? c) && (c <=? 13) || (c =? 32) || (c =? 160) || (c =? 5760)
   || (8192 <=? c) && (c <=? 8202) || (c =? 8232) || (c =? 8233)
   || (c =? 8239) || (c =? 8287) || (c =? 12288) || (c =? 65279))%N.

Fixpoint trimStart (s : jsstring) : jsstring :=
  match s with
  | c :: rest => if isWhiteSpace c then trimStart rest else s
  | [] => []
  end.

(** [s.trim()]. *)
Definition trim (s : jsstring) : jsstring :=
  rev (trimStart (rev (trimStart s))).

(** Truthiness of a string: non-empty. *)
Definition truthy (s : jsstring) : bool :=
  match s with [] => false | _ => true end.

End JsString.

Import JsString.

(* ===================================================================== *)
(** ** Dates                                                               *)
(* ===================================================================== *)

(** A [Date] object is its time value: milliseconds since the epoch, or
    [None] for an Invalid Date (time value NaN). *)
Definition Date := option Z.

(** The engine's and the libraries' date functions the components call. They
    are not part of the repository and are taken as an interface. A function
    that may throw returns [None] when it does. *)
Class DateLib := {
  (** [new Date(s)] *)
  newDate : jsstring -> Date;
  (** [d.toISOString()], a RangeError on an Invalid Date *)
  toISOString : Date -> option jsstring;
  (** date-fns-tz [toZonedTime(d, timeZone)] *)
  toZonedTime : Date -> jsstring -> Date;
  (** date-fns [format(d, pattern)] *)
  format : Date -> jsstring -> option jsstring;
  (** date-fns [formatDistanceToNow(d, { addSuffix: false })] at clock [now] *)
  formatDistanceToNow : Date -> Z -> option jsstring
}.

(** [a <= b] on Dates compares the time values as numbers; any comparison
    with NaN is false. *)
Definition dateLe (a b : Date) : bool :=
  match a, b with
  | Some x, Some y => x <=? y
  | _, _ => false
  end.

(** date-fns [isPast(d)]: [+toDate(d) < Date.now()]. *)
Definition isPast (d : Date) (now : Z) : bool :=
  match d with
  | Some x => x <? now
  | None => false
  end.

(* ===================================================================== *)
(** ** lib/api.ts: the records exchanged with the REST API                 *)
(* ===================================================================== *)

Module Api.

Inductive Status := scheduled | completed | failed.

#[global] Instance Status_eq_dec : EqDecision Status.
Proof. solve_decision. Defined.

Record Reminder := {
  id : Z;
  title : jsstring;
  message : jsstring;
  phone_number : jsstring;
  scheduled_at : jsstring;
  timezone : jsstring;
  status : Status;
  call_id : option jsstring;
  error_message : option jsstring;
  created_at : jsstring;
  updated_at : jsstring
}.

Record CreateReminderData := {
  c_title : jsstring;
  c_message : jsstring;
  c_phone_number : jsstring;
  c_scheduled_at : jsstring;
  c_timezone : jsstring
}.

(** Every field of an update is optional. *)
Record UpdateReminderData := {
  u_title : option jsstring;
  u_message : option jsstring;
  u_phone_number : option jsstring;
  u_scheduled_at : option jsstring;
  u_timezone : option jsstring
}.

End Api.

(* ===================================================================== *)
(** ** reminder-form.tsx                                                   *)
(* ===================================================================== *)

Module Form.

Import Api.

(** [formatPhoneDisplay]. *)
Definition formatPhoneDisplay (value : jsstring) : jsstring :=
  let digits := stripNonDigits value in
  let n := length digits in
  if (n =? 0)%nat then js "+"
  else if (n <=? 1)%nat then js "+" ++ digits
  else if (n <=? 4)%nat then
    js "+" ++ slice digits 0 1 ++ js " " ++ sliceFrom digits 1
  else if (n <=? 7)%nat then
    js "+" ++ slice digits 0 1 ++ js " (" ++ slice digits 1 4 ++ js ") "
       ++ sliceFrom digits 4
  else
    js "+" ++ slice digits 0 1 ++ js " (" ++ slice digits 1 4 ++ js ") "
       ++ slice digits 4 7 ++ js "-" ++ slice digits 7 11.

(** [parsePhoneToE164]: the empty string when no digit is left. *)
Definition parsePhoneToE164 (formatted : jsstring) : jsstring :=
  let digits := stripNonDigits formatted in
  if truthy digits then js "+" ++ digits else js "".

(** [/^\+[1-9]\d{6,14}$/.test(s)]: a ['+'], one digit from 1 to 9, then
    between 6 and 14 further digits, and nothing else ([$] without the [m]
    flag is the end of the input). *)
Definition testE164 (s : jsstring) : bool :=
  match s with
  | plus :: first :: rest =>
      (plus =? 43)%N && ((49 <=? first) && (first <=? 57))%N
      && forallb isDigit rest
      && (6 <=? length rest)%nat && (length rest <=? 14)%nat
  | _ => false
  end.

(** The fields [validateField] knows; any other name validates. *)
Inductive Field := f_title | f_message | f_phone_number | f_date | f_time | f_other.

(** [validateField(field, value)]: the error text, [None] for [undefined]. *)
Definition validateField (field : Field) (value : jsstring) : option jsstring :=
  match field with
  | f_title =>
      if negb (truthy (trim value)) then Some (js "Title is required")
      else if (100 <? length value)%nat then Some (js "Title must be under 100 characters")
      else None
  | f_message =>
      if negb (truthy (trim value)) then Some (js "Message is required") else None
  | f_phone_number =>
      let e164 := parsePhoneToE164 value in
      if negb (truthy e164) || bool_decide (e164 = js "+") then
        Some (js "Phone number is required")
      else if negb (testE164 e164) then Some (js "Enter a valid phone number")
      else None
  | f_date => if negb (truthy value) then Some (js "Date is required") else None
  | f_time => if negb (truthy value) then Some (js "Time is required") else None
  | f_other => None
  end.

(** The component's state that validation and submission read. *)
Record FormState := {
  s_title : jsstring;
  s_message : jsstring;
  phoneDisplay : jsstring;
  s_date : jsstring;
  s_time : jsstring;
  s_timezone : jsstring
}.

Record FormErrors := {
  e_title : option jsstring;
  e_message : option jsstring;
  e_phone_number : option jsstring;
  e_date : option jsstring;
  e_time : option jsstring
}.

(** [a || b] on possibly undefined error texts. *)
Definition orElse (a b : option jsstring) : option jsstring :=
  match a with
  | Some e => if truthy e then a else b
  | None => b
  end.

(** An error value is truthy when it is a non-empty text. *)
Definition isError (e : option jsstring) : bool :=
  match e with Some t => truthy t | None => false end.

Section WithDates.
Context `{DateLib}.

(** The template literal [`${date}T${time}`]. *)
Definition dateTimeLiteral (st : FormState) : jsstring :=
  s_date st ++ js "T" ++ s_time st.

(** [validateDateTime], at clock [now] (the value of [new Date()]). *)
Definition validateDateTime (st : FormState) (now : Z) : option jsstring :=
  if negb (truthy (s_date st)) || negb (truthy (s_time st)) then None
  else
    let scheduled := newDate (dateTimeLiteral st) in
    if dateLe scheduled (Some now) then Some (js "Scheduled time must be in the future")
    else None.

(** The errors [validateForm] computes. *)
Definition formErrors (st : FormState) (now : Z) : FormErrors :=
  {| e_title := validateField f_title (s_title st);
     e_message := validateField f_message (s_message st);
     e_phone_number := validateField f_phone_number (phoneDisplay st);
     e_date := orElse (validateField f_date (s_date st)) (validateDateTime st now);
     e_time := validateField f_time (s_time st) |}.

(** [validateForm]: [!Object.values(newErrors).some((error) => error)]. *)
Definition validateForm (st : FormState) (now : Z) : bool :=
  let e := formErrors st now in
  negb (existsb isError [e_title e; e_message e; e_phone_number e; e_date e; e_time e]).

(** What a submit does: nothing when validation fails, an exception when the
    date does not serialise, otherwise one mutation. *)
Inductive Mutation :=
  | createMutation (data : CreateReminderData)
  | updateMutation (id : Z) (data : UpdateReminderData).

Inductive SubmitOutcome :=
  | Blocked
  | Threw
  | Mutate (m : Mutation).

(** [handleSubmit]; [reminder] is the prop, present when editing. *)
Definition handleSubmit (reminder : option Reminder) (st : FormState) (now : Z)
  : SubmitOutcome :=
  if negb (validateForm st now) then Blocked
  else
    let scheduledAt := newDate (dateTimeLiteral st) in
    let phoneNumber := parsePhoneToE164 (phoneDisplay st) in
    match toISOString scheduledAt with
    | None => Threw
    | Some iso =>
        match reminder with
        | Some r =>
            Mutate (updateMutation (id r)
              {| u_title := Some (trim (s_title st));
                 u_message := Some (trim (s_message st));
                 u_phone_number := Some phoneNumber;
                 u_scheduled_at := Some iso;
                 u_timezone := Some (s_timezone st) |})
        | None =>
            Mutate (createMutation
              {| c_title := trim (s_title st);
                 c_message := trim (s_message st);
                 c_phone_number := phoneNumber;
                 c_scheduled_at := iso;
                 c_timezone := s_timezone st |})
        end
    end.

(** The phone number a mutation carries to the API. *)
Definition submittedPhone (m : Mutation) : option jsstring :=
  match m with
  | createMutation d => Some (c_phone_number d)
  | updateMutation _ d => u_phone_number d
  end.

(** [handlePhoneChange]: the only writer of [phoneDisplay] after mount. *)
Definition handlePhoneChange (st : FormState) (value : jsstring) : FormState :=
  {| s_title := s_title st; s_message := s_message st;
     phoneDisplay := formatPhoneDisplay value;
     s_date := s_date st; s_time := s_time st; s_timezone := s_timezone st |}.

End WithDates.

End Form.

(* ===================================================================== *)
(** ** reminder-card.tsx, reminder-list.tsx                                *)
(* ===================================================================== *)

Module Card.

Import Api.

(** The bullet U+2022 that replaces a masked digit. *)
Definition bullet : char16 := 8226%N.

(** Line terminators: LF, CR, LS, PS. *)
Definition isLineTerminator (c : char16) : bool :=
  ((c =? 10) || (c =? 13) || (c =? 8232) || (c =? 8233))%N.

(** [.] without the [s] flag: any code unit but a line terminator. *)
Definition isDot (c : char16) : bool := negb (isLineTerminator c).

(** The lookahead [(?=.{4})] tried on what follows the current unit. *)
Definition lookahead4 (rest : jsstring) : bool :=
  (4 <=? length rest)%nat && forallb isDot (take 4 rest).

(** [s.replace(/\d(?=.{4})/g, "•")]: a match is one digit that four
    dot-units follow; matches are single units, so each position is decided
    on its own, left to right. *)
Fixpoint replaceMasked (s : jsstring) : jsstring :=
  match s with
  | [] => []
  | c :: rest =>
      (if isDigit c && lookahead4 rest then bullet else c) :: replaceMasked rest
  end.

(** [maskPhone]. *)
Definition maskPhone (phone : jsstring) : jsstring :=
  if (length phone <=? 6)%nat then phone
  else replaceMasked (slice phone 0 (-4)) ++ sliceFrom phone (-4).

(** [getStatusConfig], the label. *)
Definition statusLabel (s : Status) : jsstring :=
  match s with
  | scheduled => js "Scheduled"
  | completed => js "Completed"
  | failed => js "Failed"
  end.

(** The buttons of the actions row. *)
Inductive Action := EditButton | DeleteButton.

#[global] Instance Action_eq_dec : EqDecision Action.
Proof. solve_decision. Defined.

(** What one render of the card shows. *)
Record CardView := {
  v_title : jsstring;
  v_message : jsstring;
  v_badge : jsstring;
  v_date : jsstring;
  v_time : jsstring;
  v_phone : jsstring;
  v_countdown : option jsstring;
  v_error : option jsstring;
  v_actions : list Action;
  v_editDialog : bool
}.

(** A view without its calendar date and clock time. *)
Definition withoutDateTime (v : CardView) : CardView :=
  {| v_title := v_title v; v_message := v_message v; v_badge := v_badge v;
     v_date := []; v_time := [];
     v_phone := v_phone v; v_countdown := v_countdown v; v_error := v_error v;
     v_actions := v_actions v; v_editDialog := v_editDialog v |}.

Section WithDates.
Context `{DateLib}.

(** [parseAsUTC] (the same function stands in reminder-form.tsx). *)
Definition parseAsUTC (dateString : jsstring) : Date :=
  if negb (endsWith dateString (js "Z")) && negb (includes dateString (js "+"))
  then newDate (dateString ++ js "Z")
  else newDate dateString.

(** [updateCountdown], the function the effect calls at once and then
    every second, run at clock [now]: the text it passes to [setTimeLeft];
    [None] when [formatDistanceToNow] throws. *)
Definition updateCountdown (targetDate : Date) (now : Z) : option jsstring :=
  if isPast targetDate now then Some (js "Processing...")
  else formatDistanceToNow targetDate now.

(** One run of the effect of [useCountdown], or of its interval, at clock
    [now]: the new [timeLeft]. *)
Definition countdownEffect (targetDate : Date) (enabled : bool) (now : Z)
  : option jsstring :=
  if negb enabled then Some (js "")
  else updateCountdown targetDate now.

(** [useCountdown]: the state [timeLeft] it returns. The state starts as
    [useState("")] and is only written by the runs of the effect and of the
    interval; [runs] are the clocks of the runs so far, oldest first. A
    render before the first run sees [""]; [None] when a run threw. *)
Definition useCountdown (targetDate : Date) (enabled : bool) (runs : list Z)
  : option jsstring :=
  fold_left (λ timeLeft now, timeLeft ≫= λ _, countdownEffect targetDate enabled now)
            runs (Some (js "")).

(** The [countdown] constant of [ReminderCard] after the given runs. *)
Definition countdown (reminder : Reminder) (runs : list Z) : option jsstring :=
  let utcDate := parseAsUTC (scheduled_at reminder) in
  useCountdown utcDate (bool_decide (status reminder = scheduled)) runs.

(** The countdown banner: shown for a scheduled reminder with a non-empty
    countdown. *)
Definition countdownBanner (reminder : Reminder) (timeLeft : jsstring)
  : option jsstring :=
  if bool_decide (status reminder = scheduled) && truthy timeLeft then
    Some (if bool_decide (timeLeft = js "Processing...") then timeLeft
          else js "Calls in " ++ timeLeft)
  else None.

(** The error banner: shown for a failed reminder with a non-empty
    [error_message]. *)
Definition errorBanner (reminder : Reminder) : option jsstring :=
  if bool_decide (status reminder = failed) then
    match error_message reminder with
    | Some e => if truthy e then Some e else None
    | None => None
    end
  else None.

(** The actions row: Edit only for a scheduled reminder, Delete always. *)
Definition actions (reminder : Reminder) : list Action :=
  (if bool_decide (status reminder = scheduled) then [EditButton] else [])
  ++ [DeleteButton].

(** [ReminderCard]: one render with the hook state [timeLeft] (the value
    of [countdown]) and the local state [isEditOpen]; [None] when [format]
    throws. *)
Definition ReminderCard (reminder : Reminder) (timeLeft : jsstring)
    (isEditOpen : bool) : option CardView :=
  let utcDate := parseAsUTC (scheduled_at reminder) in
  let displayDate := toZonedTime utcDate (timezone reminder) in
  match format displayDate (js "MMM d, yyyy"),
        format displayDate (js "h:mm a") with
  | Some dateText, Some timeText =>
      Some {| v_title := title reminder;
              v_message := message reminder;
              v_badge := statusLabel (status reminder);
              v_date := dateText;
              v_time := timeText;
              v_phone := maskPhone (phone_number reminder);
              v_countdown := countdownBanner reminder timeLeft;
              v_error := errorBanner reminder;
              v_actions := actions reminder;
              v_editDialog := isEditOpen |}
  | _, _ => None
  end.

End WithDates.

(** The same reminder with another [timezone]. *)
Definition withTimezone (tz : jsstring) (r : Reminder) : Reminder :=
  {| id := id r; title := title r; message := message r;
     phone_number := phone_number r; scheduled_at := scheduled_at r;
     timezone := tz; status := status r; call_id := call_id r;
     error_message := error_message r; created_at := created_at r;
     updated_at := updated_at r |}.

(** What the user can do to a card. A click needs its button on screen. *)
Inductive CardEvent :=
  | clickEdit           (* [onClick={() => setIsEditOpen(true)}] *)
  | confirmDelete       (* [deleteMutation.mutate()] *)
  | formSuccess         (* [onSuccess={() => setIsEditOpen(false)}] *)
  | formCancel          (* [onCancel={() => setIsEditOpen(false)}] *)
  | dialogDismiss.      (* [onOpenChange] of a dialog that has no trigger *)

(** The local state [isEditOpen] after an event on the card of [reminder]. *)
Definition onEvent (reminder : Reminder) (isEditOpen : bool) (e : CardEvent) : bool :=
  match e with
  | clickEdit =>
      if bool_decide (EditButton ∈ actions reminder) then true else isEditOpen
  | confirmDelete => isEditOpen
  | formSuccess | formCancel | dialogDismiss => false
  end.

(** What happens to a mounted card: the user does something, or the list
    refetches and hands the card (same [key], same component instance) a new
    [reminder] prop; React keeps [isEditOpen] across the new prop. *)
Inductive CardStep :=
  | userEvent (e : CardEvent)
  | reminderChanged (reminder : Reminder).

(** The card's prop and local state. *)
Definition CardState := (Reminder * bool)%type.

Definition cardStep (st : CardState) (s : CardStep) : CardState :=
  match s with
  | userEvent e => (st.1, onEvent st.1 st.2 e)
  | reminderChanged r' => (r', st.2)
  end.

(** The card mounted with [reminder] ([useState(false)]), then the steps in
    order. *)
Definition cardAfter (reminder : Reminder) (steps : list CardStep) : CardState :=
  fold_left cardStep steps (reminder, false).

(** The parameters [ReminderList] gives [api.getReminders]. *)
Inductive StatusFilter := all | only (s : Status).

Record ListQuery := {
  q_status : option Status;
  q_sort_by : jsstring;
  q_sort_order : jsstring
}.

Definition listQuery (statusFilter : StatusFilter) : ListQuery :=
  {| q_status := match statusFilter with all => None | only s => Some s end;
     q_sort_by := js "scheduled_at";
     q_sort_order := js "asc" |}.

End Card.

(* ===================================================================== *)
(** ** The scheduling and delivery engine                                  *)
(* ===================================================================== *)

Module Engine.

(** Modelled from the spec: the absolute instant of section 3
    ([scheduledAt], [createdAt], [updatedAt]), one canonical time
    reference; the backend's models.py is not among the sources. *)
Definition Instant := Z.

(** Modelled from the spec: the three statuses of section 3. *)
Inductive Status := Scheduled | Completed | Failed.

#[global] Instance Status_eq_dec : EqDecision Status.
Proof. solve_decision. Defined.

(** Modelled from the spec: the Reminder entity of section 3 (models.py is
    missing). *)
Record Reminder := {
  id : nat;
  title : string;
  message : string;
  phoneNumber : string;
  scheduledAt : Instant;
  timezone : string;
  status : Status;
  callId : option string;
  errorMessage : option string;
  createdAt : Instant;
  updatedAt : Instant
}.

(** Modelled from the spec: the three status/field invariants of section 3. *)
Definition fieldInvariants (r : Reminder) : Prop :=
  match status r with
  | Completed => callId r ≠ None ∧ errorMessage r = None
  | Failed => callId r = None ∧ errorMessage r ≠ None
  | Scheduled => callId r = None ∧ errorMessage r = None
  end.

(** Modelled from the spec: the reminder store, the single shared mutable
    resource of section 5, keyed by [id]. *)
Abbreviation Store := (gmap nat Reminder) (only parsing).

(** Modelled from the spec: the invariants hold of every stored record. *)
Definition storeInvariant (s : Store) : Prop :=
  ∀ i r, s !! i = Some r → fieldInvariants r.

(** Modelled from the spec: what a repository write reports (section 4.1):
    success, NotFound, or the already-handled no-op. *)
Inductive WriteResult := Success | AlreadyHandled | NotFound.

(** Modelled from the spec: the conditional write of sections 4.1 and 9, one
    atomic update-where-status-equals-Scheduled. *)
Definition conditionalWrite (i : nat) (f : Reminder → Reminder) (s : Store)
  : Store * WriteResult :=
  match s !! i with
  | None => (s, NotFound)
  | Some r =>
      if decide (status r = Scheduled) then (<[i := f r]> s, Success)
      else (s, AlreadyHandled)
  end.

(** Modelled from the spec: the record [MarkCompleted] writes: status
    Completed, the call id, [errorMessage] cleared, [updatedAt] bumped. *)
Definition completedRecord (c : string) (now : Instant) (r : Reminder) : Reminder :=
  {| id := id r; title := title r; message := message r;
     phoneNumber := phoneNumber r; scheduledAt := scheduledAt r;
     timezone := timezone r; status := Completed; callId := Some c;
     errorMessage := None; createdAt := createdAt r; updatedAt := now |}.

(** Modelled from the spec: the record [MarkFailed] writes: status Failed
    and [errorMessage] the reason; section 4.1 names no other field. *)
Definition failedRecord (reason : string) (now : Instant) (r : Reminder) : Reminder :=
  {| id := id r; title := title r; message := message r;
     phoneNumber := phoneNumber r; scheduledAt := scheduledAt r;
     timezone := timezone r; status := Failed; callId := callId r;
     errorMessage := Some reason; createdAt := createdAt r; updatedAt := now |}.

(** Modelled from the spec: [MarkCompleted(id, callId)] of section 4.1. *)
Definition MarkCompleted (i : nat) (c : string) (now : Instant) (s : Store)
  : Store * WriteResult :=
  conditionalWrite i (completedRecord c now) s.

(** Modelled from the spec: [MarkFailed(id, reason)] of section 4.1. *)
Definition MarkFailed (i : nat) (reason : string) (now : Instant) (s : Store)
  : Store * WriteResult :=
  conditionalWrite i (failedRecord reason now) s.

(** Modelled from the spec: either write of the Dispatch Unit (section
    4.3), to speak of both at once. *)
Inductive Mark :=
  | markCompleted (c : string)
  | markFailed (why : string).

Definition applyMark (i : nat) (m : Mark) (now : Instant) (s : Store)
  : Store * WriteResult :=
  match m with
  | markCompleted c => MarkCompleted i c now s
  | markFailed why => MarkFailed i why now s
  end.

(** Modelled from the spec: [id] is the unique identifier (section 3), so
    the entries of a store carry their own key. *)
Definition keyed (s : Store) : Prop := ∀ i r, s !! i = Some r → id r = i.

(** Modelled from the spec: the fields a user supplies on create and edit. *)
Record ReminderInput := {
  i_title : string;
  i_message : string;
  i_phoneNumber : string;
  i_scheduledAt : Instant;
  i_timezone : string
}.

(** Modelled from the spec: creation by the external API (section 3,
    Lifecycle): a fresh id, status Scheduled, no call id, no error. *)
Definition Create (d : ReminderInput) (now : Instant) (s : Store) : Store :=
  let i := fresh (dom s) in
  <[i := {| id := i; title := i_title d; message := i_message d;
            phoneNumber := i_phoneNumber d; scheduledAt := i_scheduledAt d;
            timezone := i_timezone d; status := Scheduled; callId := None;
            errorMessage := None; createdAt := now; updatedAt := now |}]> s.

(** Modelled from the spec: the record a user edit writes; the reminder is
    Scheduled afterwards and [errorMessage] is cleared (section 3). *)
Definition editedRecord (d : ReminderInput) (now : Instant) (r : Reminder) : Reminder :=
  {| id := id r; title := i_title d; message := i_message d;
     phoneNumber := i_phoneNumber d; scheduledAt := i_scheduledAt d;
     timezone := i_timezone d; status := Scheduled; callId := callId r;
     errorMessage := None; createdAt := createdAt r; updatedAt := now |}.

(** Modelled from the spec: the user edit, defined while the reminder is
    Scheduled and rejected otherwise (section 3: editing a reminder that is
    not Scheduled is not a defined operation). *)
Definition Edit (i : nat) (d : ReminderInput) (now : Instant) (s : Store)
  : Store * WriteResult :=
  conditionalWrite i (editedRecord d now) s.

(** Modelled from the spec: deletion by the user, at any status. *)
Definition Delete (i : nat) (s : Store) : Store := delete i s.

(** Modelled from the spec: the mutations of a reminder's lifecycle. *)
Inductive Op :=
  | opCreate (d : ReminderInput) (now : Instant)
  | opEdit (i : nat) (d : ReminderInput) (now : Instant)
  | opDelete (i : nat)
  | opMarkCompleted (i : nat) (c : string) (now : Instant)
  | opMarkFailed (i : nat) (reason : string) (now : Instant).

(** Modelled from the spec: the store after one mutation. *)
Definition applyOp (o : Op) (s : Store) : Store :=
  match o with
  | opCreate d now => Create d now s
  | opEdit i d now => (Edit i d now s).1
  | opDelete i => Delete i s
  | opMarkCompleted i c now => (MarkCompleted i c now s).1
  | opMarkFailed i reason now => (MarkFailed i reason now s).1
  end.

(** Modelled from the spec: the stores the system can hold (section 3,
    Lifecycle): the empty one and what any mutation makes of one it can
    hold. *)
Inductive reachable : Store → Prop :=
  | reachable_empty : reachable ∅
  | reachable_step s o : reachable s → reachable (applyOp o s).

(** Modelled from the spec: a reminder is due at [now] (Glossary). *)
Definition isDue (now : Instant) (r : Reminder) : Prop :=
  status r = Scheduled ∧ scheduledAt r ≤ now.

#[global] Instance isDue_dec now r : Decision (isDue now r).
Proof. unfold isDue. apply _. Defined.

(** Modelled from the spec: oldest-due first (section 4.1). *)
Definition dueOrder (a b : Reminder) : Prop := scheduledAt a ≤ scheduledAt b.

#[global] Instance dueOrder_dec a b : Decision (dueOrder a b).
Proof. unfold dueOrder. apply _. Defined.

(** Modelled from the spec: [FindDue(now)] of section 4.1, a snapshot of the
    store filtered to the due reminders and ordered by [scheduledAt]
    ascending (scheduler.py is missing). *)
Definition FindDue (now : Instant) (s : Store) : list Reminder :=
  merge_sort dueOrder (filter (isDue now) (map_to_list s).*2).

(** Modelled from the spec: the provider configuration of section 6, an API
    key and an outbound-number identifier, either of which may be absent. *)
Record ProviderConfig := {
  apiKey : option string;
  phoneNumberId : option string
}.

(** Modelled from the spec: the configuration is present when both
    values are. *)
Definition configured (cfg : ProviderConfig) : bool :=
  match apiKey cfg, phoneNumberId cfg with
  | Some _, Some _ => true
  | _, _ => false
  end.

(** Modelled from the spec: the failure taxonomy of section 7. *)
Inductive FailureKind := ConfigurationError | ProviderRejected | TransportError.

Record CallFailure := { kind : FailureKind; reason : string }.

(** Modelled from the spec: what the provider does with one request; the
    last case is an unexpected error raised while placing the call. *)
Inductive ProviderReply :=
  | accepted (externalCallId : string)
  | declined (why : string)
  | unreachable (why : string)
  | crashed.

(** Modelled from the spec: one network call, the phone number and the
    message sent. *)
Definition Request := (string * string)%type.

(** Modelled from the spec: the result of [PlaceCall] (section 4.2), or an
    exception. *)
Inductive CallOutcome :=
  | callOk (externalCallId : string)
  | callFailure (f : CallFailure)
  | callRaised.

(** Modelled from the spec: the engine's world, that is the store, the
    network calls made so far, and the ids dispatched so far in dispatch
    order. *)
Record World := {
  store : Store;
  requests : list Request;
  dispatched : list nat
}.

Section Port.

(** Modelled from the spec: the reason texts are the port's; the
    specification fixes none. *)
Variable configurationReason : string.
Variable genericReason : string.
Variable cfg : ProviderConfig.
Variable provider : Request → ProviderReply.

(** Modelled from the spec: [PlaceCall(phoneNumber, message)] of section
    4.2: without configuration an immediate failure and no network call,
    otherwise one best-effort request. *)
Definition PlaceCall (phone msg : string) (net : list Request)
  : CallOutcome * list Request :=
  if negb (configured cfg) then
    (callFailure {| kind := ConfigurationError; reason := configurationReason |}, net)
  else
    let net' := net ++ [(phone, msg)] in
    match provider (phone, msg) with
    | accepted c => (callOk c, net')
    | declined why => (callFailure {| kind := ProviderRejected; reason := why |}, net')
    | unreachable why => (callFailure {| kind := TransportError; reason := why |}, net')
    | crashed => (callRaised, net')
    end.

(** Modelled from the spec: the Dispatch Unit of section 4.3. The write's
    result (conflict, NotFound) is consumed silently. *)
Definition Dispatch (now : Instant) (r : Reminder) (w : World) : World :=
  let '(outcome, net') := PlaceCall (phoneNumber r) (message r) (requests w) in
  let written :=
    match outcome with
    | callOk c => MarkCompleted (id r) c now (store w)
    | callFailure f => MarkFailed (id r) (reason f) now (store w)
    | callRaised => MarkFailed (id r) genericReason now (store w)
    end in
  {| store := written.1; requests := net'; dispatched := dispatched w ++ [id r] |}.

(** Modelled from the spec: one tick of the Scheduler Loop (section 4.4):
    snapshot [now], [FindDue(now)], then dispatch in the returned order. *)
Definition Tick (now : Instant) (w : World) : World :=
  fold_left (λ w' r, Dispatch now r w') (FindDue now (store w)) w.

End Port.

End Engine.

(* ===================================================================== *)
(** ** reminder-form.tsx: the state a form mounts with                     *)
(* ===================================================================== *)

Module FormMount.

Import Api Form.

(** The initialiser of [phoneDisplay]. *)
Definition initialPhoneDisplay (reminder : option Reminder) : jsstring :=
  match reminder with
  | Some r =>
      if truthy (phone_number r) then formatPhoneDisplay (phone_number r)
      else js "+"
  | None => js "+"
  end.

Section WithDates.
Context `{DateLib}.

(** The initialisers of [date] and [time]: the stored instant shown in the
    stored zone with the given pattern; [None] when [format] throws. *)
Definition initialDateText (reminder : option Reminder) (pattern : jsstring)
  : option jsstring :=
  match reminder with
  | Some r =>
      if truthy (scheduled_at r) && truthy (timezone r) then
        let utcDate := Card.parseAsUTC (scheduled_at r) in
        let zonedDate := toZonedTime utcDate (timezone r) in
        format zonedDate pattern
      else Some (js "")
  | None => Some (js "")
  end.

(** The state of a freshly mounted form; [browserZone] is
    [Intl.DateTimeFormat().resolvedOptions().timeZone]. *)
Definition initialState (reminder : option Reminder) (browserZone : jsstring)
  : option FormState :=
  match initialDateText reminder (js "yyyy-MM-dd"),
        initialDateText reminder (js "HH:mm") with
  | Some d, Some t =>
      Some {| s_title := match reminder with Some r => title r | None => js "" end;
              s_message := match reminder with Some r => message r | None => js "" end;
              phoneDisplay := initialPhoneDisplay reminder;
              s_date := d;
              s_time := t;
              s_timezone := browserZone |}
  | _, _ => None
  end.

End WithDates.

(** [resetForm]: every field blank again, the zone kept. *)
Definition resetForm (st : FormState) : FormState :=
  {| s_title := js ""; s_message := js ""; phoneDisplay := js "+";
     s_date := js ""; s_time := js ""; s_timezone := s_timezone st |}.

(** The title and the message a mutation carries. *)
Definition submittedTitle (m : Mutation) : option jsstring :=
  match m with
  | createMutation d => Some (c_title d)
  | updateMutation _ d => u_title d
  end.

Definition submittedMessage (m : Mutation) : option jsstring :=
  match m with
  | createMutation d => Some (c_message d)
  | updateMutation _ d => u_message d
  end.

Definition submittedScheduledAt (m : Mutation) : option jsstring :=
  match m with
  | createMutation d => Some (c_scheduled_at d)
  | updateMutation _ d => u_scheduled_at d
  end.

Definition submittedTimezone (m : Mutation) : option jsstring :=
  match m with
  | createMutation d => Some (c_timezone d)
  | updateMutation _ d => u_timezone d
  end.

End FormMount.

(* ===================================================================== *)
(** ** reminder-list.tsx                                                   *)
(* ===================================================================== *)

Module ListView.

Import Api Card.

(** The text of a status and of the selected tab. *)
Definition statusText (s : Status) : jsstring :=
  match s with
  | scheduled => js "scheduled"
  | completed => js "completed"
  | failed => js "failed"
  end.

Definition filterText (f : StatusFilter) : jsstring :=
  match f with
  | all => js "all"
  | only s => statusText s
  end.

(** The tab counters. *)
Record StatusCounts := {
  n_all : nat;
  n_scheduled : nat;
  n_completed : nat;
  n_failed : nat
}.

Definition hasStatus (s : Status) (r : Reminder) : bool :=
  bool_decide (status r = s).

(** [statusCounts]. *)
Definition statusCounts (reminders : list Reminder) : StatusCounts :=
  {| n_all := length reminders;
     n_scheduled := length (List.filter (hasStatus scheduled) reminders);
     n_completed := length (List.filter (hasStatus completed) reminders);
     n_failed := length (List.filter (hasStatus failed) reminders) |}.

(** What [useQuery] hands the component: [data] ([None] for undefined),
    the two flags, and the message of the error when it is an [Error]. *)
Record QueryResult := {
  data : option (list Reminder);
  isLoading : bool;
  isError : bool;
  errorMessageOf : option jsstring
}.

(** The props [EmptyState] is given. *)
Inductive EmptyStateProps :=
  | noResults (searchQuery : jsstring)
  | noReminders (withCreateButton : bool).

(** The content area. *)
Inductive Content :=
  | skeletons (n : nat)
  | emptyState (p : EmptyStateProps)
  | cardGrid (rs : list Reminder).

(** One render of the list. *)
Inductive View :=
  | loadFailed (text : jsstring)
  | listPage (counts : StatusCounts) (content : Content).

Section WithLowerCase.

(** [String.prototype.toLowerCase], taken as given. *)
Variable toLowerCase : jsstring → jsstring.

(** The predicate of the search filter. *)
Definition matchesSearch (query : jsstring) (r : Reminder) : bool :=
  includes (toLowerCase (title r)) query
  || includes (toLowerCase (message r)) query.

(** [filteredReminders]. *)
Definition filteredReminders (reminders : list Reminder) (searchQuery : jsstring)
  : list Reminder :=
  if negb (truthy (trim searchQuery)) then reminders
  else
    let query := toLowerCase searchQuery in
    List.filter (matchesSearch query) reminders.

(** [ReminderList]: one render for the given tab, search text and query
    result; [onCreateClick] tells whether the prop is passed. *)
Definition ReminderList (onCreateClick : bool) (statusFilter : StatusFilter)
    (searchQuery : jsstring) (q : QueryResult) : View :=
  let reminders := default [] (data q) in
  let filtered := filteredReminders reminders searchQuery in
  if isError q then
    loadFailed (match errorMessageOf q with
                | Some text => text
                | None => js "An unexpected error occurred"
                end)
  else
    listPage (statusCounts reminders)
      (if isLoading q then skeletons 6
       else if (length filtered =? 0)%nat then
         if truthy searchQuery then emptyState (noResults searchQuery)
         else if (length reminders =? 0)%nat then
           emptyState (noReminders onCreateClick)
         else emptyState (noResults (filterText statusFilter))
       else cardGrid filtered).

End WithLowerCase.

End ListView.

(* ===================================================================== *)
(** ** lib/api.ts: the query of [getReminders]                             *)
(* ===================================================================== *)

Module ApiClient.

Import Card ListView.

(** The optional argument of [getReminders]. *)
Record GetRemindersParams := {
  p_status : option jsstring;
  p_search : option jsstring;
  p_sort_by : option jsstring;
  p_sort_order : option jsstring
}.

(** A [URLSearchParams] object is the list of its entries. *)
Abbreviation SearchParams := (list (jsstring * jsstring)) (only parsing).

(** [searchParams.set(name, value)]: the first entry of that name takes the
    value and the others of that name go; without one the entry is added at
    the end. *)
Fixpoint paramsSet (name value : jsstring) (l : SearchParams) : SearchParams :=
  match l with
  | [] => [(name, value)]
  | (k, v) :: rest =>
      if bool_decide (k = name)
      then (name, value) :: List.filter (λ e, negb (bool_decide (e.1 = name))) rest
      else (k, v) :: paramsSet name value rest
  end.

(** [if (params?.x) searchParams.set(name, params.x)]. *)
Definition setIfTruthy (name : jsstring) (value : option jsstring)
    (l : SearchParams) : SearchParams :=
  match value with
  | Some v => if truthy v then paramsSet name v l else l
  | None => l
  end.

(** The entries [getReminders] builds. *)
Definition getRemindersEntries (params : option GetRemindersParams) : SearchParams :=
  let l0 : SearchParams := [] in
  let l1 :=
    match params with
    | Some p =>
        match p_status p with
        | Some v =>
            if truthy v && negb (bool_decide (v = js "all"))
            then paramsSet (js "status") v l0 else l0
        | None => l0
        end
    | None => l0
    end in
  let l2 := setIfTruthy (js "search") (params ≫= p_search) l1 in
  let l3 := setIfTruthy (js "sort_by") (params ≫= p_sort_by) l2 in
  setIfTruthy (js "sort_order") (params ≫= p_sort_order) l3.

(** The argument [ReminderList] passes: the tab unless it is "all", and the
    fixed ordering. *)
Definition listParams (statusFilter : StatusFilter) : GetRemindersParams :=
  {| p_status := match statusFilter with
                 | all => None
                 | only s => Some (filterText (only s))
                 end;
     p_search := None;
     p_sort_by := Some (js "scheduled_at");
     p_sort_order := Some (js "asc") |}.

End ApiClient.

(* ===================================================================== *)
(** * Properties                                                           *)
(* ===================================================================== *)

Import Api Form Card.

(** ** Strings *)

Section StringFacts.

Implicit Types s t d : jsstring.

Lemma stripNonDigits_filter s : stripNonDigits s = List.filter isDigit s.
Proof.
  unfold stripNonDigits, isNonDigit.
  induction s as [|c s IH]; simpl; [done|].
  rewrite negb_involutive, IH. done.
Qed.

Lemma stripNonDigits_app s t :
  stripNonDigits (s ++ t) = stripNonDigits s ++ stripNonDigits t.
Proof. rewrite !stripNonDigits_filter. apply List.filter_app. Qed.

Lemma stripNonDigits_all_digits s : forallb isDigit (stripNonDigits s) = true.
Proof.
  rewrite stripNonDigits_filter.
  induction s as [|c s IH]; simpl; [done|].
  destruct (isDigit c) eqn:E; simpl; [rewrite E|]; done.
Qed.

Lemma stripNonDigits_id d : forallb isDigit d = true → stripNonDigits d = d.
Proof.
  rewrite stripNonDigits_filter.
  induction d as [|c d IH]; simpl; [done|].
  intros [Hc Hd]%andb_prop. rewrite Hc, IH; done.
Qed.

Lemma forallb_take (f : N → bool) n s :
  forallb f s = true → forallb f (take n s) = true.
Proof.
  revert n; induction s as [|c s IH]; intros [|n]; simpl; try done.
  intros [Hc Hs]%andb_prop. rewrite Hc. simpl. auto.
Qed.

Lemma forallb_drop (f : N → bool) n s :
  forallb f s = true → forallb f (drop n s) = true.
Proof.
  revert n; induction s as [|c s IH]; intros [|n]; simpl; try done.
  intros [Hc Hs]%andb_prop. auto.
Qed.

(** [slice] between two in-order non-negative indices. *)
Lemma slice_nonneg s (a b : Z) :
  0 ≤ a ≤ b → slice s a b = drop (Z.to_nat a) (take (Z.to_nat b) s).
Proof.
  intros Hab. unfold slice, clampIndex.
  destruct (Z.ltb_spec a 0), (Z.ltb_spec b 0); try lia.
  destruct (decide (length s ≤ Z.to_nat a)%nat) as [Hge|Hlt].
  - rewrite (drop_ge s) by lia.
    rewrite drop_ge; [apply take_nil|].
    rewrite length_take. lia.
  - rewrite (Z.min_l a) by lia.
    rewrite take_drop_commute. f_equal.
    destruct (decide (Z.to_nat b ≤ length s)%nat).
    + f_equal. lia.
    + rewrite !take_ge; [done|lia|lia].
Qed.

Lemma sliceFrom_nonneg s (a : Z) : 0 ≤ a → sliceFrom s a = drop (Z.to_nat a) s.
Proof.
  intros Ha. unfold sliceFrom.
  destruct (decide (a ≤ Z.of_nat (length s))) as [Hle|Hgt].
  - rewrite slice_nonneg by lia. rewrite Nat2Z.id. by rewrite firstn_all.
  - unfold slice, clampIndex.
    destruct (Z.ltb_spec a 0); [lia|].
    rewrite !drop_ge by lia. apply take_nil.
Qed.

Lemma clampIndex_neg (len : nat) (k : nat) :
  (0 < k)%nat → clampIndex (Z.of_nat len) (- Z.of_nat k) = Z.of_nat (len - k).
Proof. intros Hk. unfold clampIndex. destruct (Z.ltb_spec (- Z.of_nat k) 0); lia. Qed.

Lemma clampIndex_len (len : nat) : clampIndex (Z.of_nat len) (Z.of_nat len) = Z.of_nat len.
Proof. unfold clampIndex. destruct (Z.ltb_spec (Z.of_nat len) 0); lia. Qed.

(** [s.slice(0, -k)] drops the last [k] units, [s.slice(-k)] keeps them. *)
Lemma slice_drop_last s (k : nat) :
  (0 < k)%nat → slice s 0 (- Z.of_nat k) = take (length s - k) s.
Proof.
  intros Hk. unfold slice. rewrite clampIndex_neg by done.
  change (clampIndex (Z.of_nat (length s)) 0) with (Z.min 0 (Z.of_nat (length s))).
  rewrite Z.min_l by lia. simpl drop. f_equal. lia.
Qed.

Lemma sliceFrom_last s (k : nat) :
  (0 < k)%nat → sliceFrom s (- Z.of_nat k) = drop (length s - k) s.
Proof.
  intros Hk. unfold sliceFrom, slice.
  rewrite clampIndex_neg, clampIndex_len by done.
  rewrite Nat2Z.id. apply take_ge. rewrite length_drop. lia.
Qed.

(** Asking for no more than there is changes nothing. *)
Lemma take_min_length s (n : nat) : take (min (length s) n) s = take n s.
Proof.
  destruct (decide (n ≤ length s)%nat).
  - by rewrite Nat.min_r.
  - rewrite Nat.min_l by lia. by rewrite !take_ge by lia.
Qed.

(** Adjacent pieces of one string glue. *)
Lemma drop_take_glue s (a b c : nat) :
  (a ≤ b ≤ c)%nat →
  drop a (take b s) ++ drop b (take c s) = drop a (take c s).
Proof.
  intros [Hab Hbc].
  rewrite <- (drop_take_drop (take c s) a b Hab).
  rewrite take_take. by rewrite Nat.min_l.
Qed.

(** [endsWith] decides being a suffix. *)
Lemma endsWith_spec s t : endsWith s t = true ↔ ∃ p, s = p ++ t.
Proof.
  unfold endsWith. rewrite bool_decide_eq_true. split.
  - intros Hd. exists (take (length s - length t) s).
    pose proof (take_drop (length s - length t) s) as E.
    rewrite Hd in E. done.
  - intros [p ->]. rewrite length_app.
    replace (length p + length t - length t)%nat with (length p) by lia.
    apply drop_app_length.
Qed.

(** [includes] decides having an occurrence. *)
Lemma includes_spec s t : includes s t = true ↔ ∃ p q, s = p ++ t ++ q.
Proof.
  unfold includes. rewrite existsb_exists. split.
  - intros (k & _ & Hk%bool_decide_eq_true).
    exists (take k s), (drop (length t) (drop k s)).
    rewrite <- (take_drop k s) at 1. f_equal.
    rewrite <- (take_drop (length t) (drop k s)) at 1. by rewrite Hk.
  - intros (p & q & ->). exists (length p). split.
    + apply in_seq. rewrite !length_app. lia.
    + apply bool_decide_eq_true.
      rewrite drop_app_length. apply take_app_length.
Qed.

Lemma includes_char s (c : N) : includes s [c] = true ↔ c ∈ s.
Proof.
  rewrite includes_spec. split.
  - intros (p & q & ->). set_solver.
  - intros (p & q & ->)%list_elem_of_split. by exists p, q.
Qed.

End StringFacts.

(** ** The phone field of the form *)

Section PhoneFacts.

Implicit Types s d : jsstring.

Lemma truthy_length s : truthy s = negb (length s =? 0)%nat.
Proof. by destruct s. Qed.

(** On a string of digits [parsePhoneToE164] only prefixes the ['+']. *)
Lemma parsePhoneToE164_digits s :
  parsePhoneToE164 s =
  if (length (stripNonDigits s) =? 0)%nat then [] else 43%N :: stripNonDigits s.
Proof.
  unfold parsePhoneToE164. rewrite truthy_length.
  by destruct (length (stripNonDigits s) =? 0)%nat.
Qed.

(** The punctuation the formatter inserts holds no digit. *)
Ltac strip_literals :=
  repeat match goal with
  | |- context [stripNonDigits (js ?l)] =>
      let v := eval vm_compute in (stripNonDigits (js l)) in
      change (stripNonDigits (js l)) with v
  end;
  rewrite ?app_nil_l.

(** The digits of the display text are the first eleven digits typed. *)
Lemma formatPhoneDisplay_digits s :
  stripNonDigits (formatPhoneDisplay s) = take 11 (stripNonDigits s).
Proof.
  unfold formatPhoneDisplay.
  pose proof (stripNonDigits_all_digits s) as Hd.
  set (d := stripNonDigits s) in *.
  assert (Hslice : ∀ a b, stripNonDigits (drop a (take b d)) = drop a (take b d)).
  { intros a b. apply stripNonDigits_id. by apply forallb_drop, forallb_take. }
  assert (Hfrom : ∀ a, stripNonDigits (drop a d) = drop a d).
  { intros a. apply stripNonDigits_id. by apply forallb_drop. }
  rewrite !slice_nonneg, !sliceFrom_nonneg by lia.
  change (Z.to_nat 0) with 0%nat; change (Z.to_nat 1) with 1%nat;
  change (Z.to_nat 4) with 4%nat; change (Z.to_nat 7) with 7%nat;
  change (Z.to_nat 11) with 11%nat.
  destruct (Nat.eqb_spec (length d) 0) as [H0|H0].
  { apply length_zero_iff_nil in H0. by rewrite H0. }
  destruct (Nat.leb_spec (length d) 1) as [H1|H1].
  { rewrite stripNonDigits_app, (stripNonDigits_id d Hd). strip_literals.
    by rewrite take_ge by lia. }
  destruct (Nat.leb_spec (length d) 4) as [H4|H4].
  { rewrite !stripNonDigits_app, Hslice, Hfrom. strip_literals.
    rewrite (take_ge d 11) by lia.
    by rewrite (drop_take_drop d 0 1) by lia. }
  destruct (Nat.leb_spec (length d) 7) as [H7|H7].
  { rewrite !stripNonDigits_app, !Hslice, Hfrom. strip_literals.
    rewrite (take_ge d 11) by lia.
    rewrite app_assoc, (drop_take_glue d 0 1 4) by lia.
    by rewrite (drop_take_drop d 0 4) by lia. }
  rewrite !stripNonDigits_app, !Hslice. strip_literals.
  rewrite app_assoc, (drop_take_glue d 0 1 4) by lia.
  rewrite app_assoc, (drop_take_glue d 0 4 7) by lia.
  by rewrite (drop_take_glue d 0 7 11) by lia.
Qed.

(** [testE164] accepts exactly a ['+'], a digit from 1 to 9, and 6 to 14
    further digits. *)
Lemma testE164_spec s :
  testE164 s = true ↔
  ∃ first rest, s = 43%N :: first :: rest ∧ (49 ≤ first ≤ 57)%N
    ∧ forallb isDigit rest = true ∧ (6 ≤ length rest ≤ 14)%nat.
Proof.
  unfold testE164. split.
  - destruct s as [|plus [|first rest]]; try done.
    rewrite !andb_true_iff.
    intros [[[[Hp%N.eqb_eq [H1%N.leb_le H9%N.leb_le]] Hd] H6%Nat.leb_le] H14%Nat.leb_le].
    subst plus. by exists first, rest.
  - intros (first & rest & -> & [H1 H9] & Hd & [H6 H14]).
    rewrite !andb_true_iff. repeat split; try done.
    + by apply N.leb_le.
    + by apply N.leb_le.
    + by apply Nat.leb_le.
    + by apply Nat.leb_le.
Qed.

(** A phone field without error holds a number [testE164] accepts. *)
Lemma validateField_phone_ok value :
  isError (validateField f_phone_number value) = false →
  testE164 (parsePhoneToE164 value) = true.
Proof.
  unfold validateField.
  destruct (negb (truthy (parsePhoneToE164 value)) || _); [done|].
  by destruct (testE164 (parsePhoneToE164 value)).
Qed.

End PhoneFacts.

Section FormFacts.
Context `{DateLib}.

Lemma validateForm_phone st now :
  validateForm st now = true →
  testE164 (parsePhoneToE164 (phoneDisplay st)) = true.
Proof.
  unfold validateForm. rewrite negb_true_iff. simpl.
  rewrite !orb_false_iff. intros (_ & _ & Hp & _).
  by apply validateField_phone_ok.
Qed.

(** A number the validation regex rejects never leaves the form. *)
Lemma handleSubmit_blocks reminder st now :
  testE164 (parsePhoneToE164 (phoneDisplay st)) = false →
  handleSubmit reminder st now = Blocked.
Proof.
  intros Hno. unfold handleSubmit.
  destruct (validateForm st now) eqn:Hv; [|done].
  apply validateForm_phone in Hv. congruence.
Qed.

(** C5. Every phone number the form submits, on create and on edit, is
    [parsePhoneToE164] of the phone field, that is ['+'] followed by the
    field's digits and nothing else, and it matches [^\+[1-9]\d{6,14}$]: the
    first digit is not zero and there are 7 to 15 digits in all. *)
Theorem submitted_phone_canonical reminder st now m :
  handleSubmit reminder st now = Mutate m →
  ∃ first rest,
    submittedPhone m = Some (43%N :: first :: rest)
    ∧ first :: rest = stripNonDigits (phoneDisplay st)
    ∧ (49 ≤ first ≤ 57)%N
    ∧ forallb isDigit (first :: rest) = true
    ∧ (7 ≤ length (first :: rest) ≤ 15)%nat
    ∧ testE164 (43%N :: first :: rest) = true.
Proof.
  unfold handleSubmit. intros Hm.
  destruct (validateForm st now) eqn:Hv; [|done]. simpl in Hm.
  apply validateForm_phone in Hv.
  pose proof Hv as Hspec.
  apply testE164_spec in Hspec as (first & rest & Hp & Hfirst & Hrest & Hlen).
  exists first, rest.
  assert (Hsub : submittedPhone m = Some (parsePhoneToE164 (phoneDisplay st))).
  { destruct (toISOString _); [|done].
    destruct reminder; inversion Hm; done. }
  assert (Hdigits : first :: rest = stripNonDigits (phoneDisplay st)).
  { rewrite parsePhoneToE164_digits in Hp.
    destruct (length (stripNonDigits (phoneDisplay st)) =? 0)%nat; [done|].
    by inversion Hp. }
  rewrite Hsub, Hp.
  split; [reflexivity|]. split; [exact Hdigits|]. split; [exact Hfirst|].
  split; [rewrite Hdigits; apply stripNonDigits_all_digits|].
  split; [simpl; lia|].
  rewrite <- Hp. exact Hv.
Qed.

End FormFacts.

Section RoundTrip.

Implicit Types s e : jsstring.

(** C8, as amended. For every input [s] with [n] digits, parsing the
    display text gives the empty string when [n = 0] and otherwise ['+']
    followed by the first [min n 11] digits of [s]. *)
Theorem format_parse_roundtrip s :
  parsePhoneToE164 (formatPhoneDisplay s) =
  if (length (stripNonDigits s) =? 0)%nat then js ""
  else js "+" ++ take (min (length (stripNonDigits s)) 11) (stripNonDigits s).
Proof.
  rewrite parsePhoneToE164_digits, formatPhoneDisplay_digits.
  rewrite take_min_length, length_take.
  destruct (stripNonDigits s) as [|c d]; done.
Qed.

(** C8 on the input without digits: the round trip gives the empty string,
    not ['+'] followed by the first [min 0 11] digits. *)
Lemma format_parse_roundtrip_no_digit :
  parsePhoneToE164 (formatPhoneDisplay (js "")) ≠
  js "+" ++ take (min (length (stripNonDigits (js ""))) 11) (stripNonDigits (js "")).
Proof. vm_compute. discriminate. Qed.

(** The display keeps at most eleven digits. *)
Lemma formatPhoneDisplay_at_most_11 s :
  (length (stripNonDigits (formatPhoneDisplay s)) ≤ 11)%nat.
Proof. rewrite formatPhoneDisplay_digits, length_take. lia. Qed.

(** A number the validation accepts does not survive formatting and parsing
    once it has more than eleven digits. *)
Lemma long_number_not_preserved e :
  testE164 e = true → (11 < length (stripNonDigits e))%nat →
  parsePhoneToE164 (formatPhoneDisplay e) ≠ e.
Proof.
  intros Hok Hlong Heq.
  pose proof (formatPhoneDisplay_at_most_11 e) as Hshort.
  apply (f_equal stripNonDigits) in Heq.
  rewrite parsePhoneToE164_digits in Heq.
  destruct (length (stripNonDigits (formatPhoneDisplay e)) =? 0)%nat eqn:E0.
  - rewrite <- Heq in Hlong. simpl in Hlong. lia.
  - change (43%N :: ?x) with ([43%N] ++ x) in Heq.
    rewrite stripNonDigits_app in Heq. simpl in Heq.
    rewrite stripNonDigits_id in Heq by apply stripNonDigits_all_digits.
    rewrite <- Heq in Hlong. lia.
Qed.

Example twelve_digits_accepted_and_truncated :
  testE164 (js "+123456789012") = true
  ∧ parsePhoneToE164 (formatPhoneDisplay (js "+123456789012")) = js "+12345678901".
Proof. by vm_compute. Qed.

End RoundTrip.

(** ** Masking *)

Section MaskFacts.

Implicit Types s phone rest : jsstring.

Lemma length_replaceMasked s : length (replaceMasked s) = length s.
Proof. induction s as [|c s IH]; simpl; [done|]. by rewrite IH. Qed.

(** Each position of [replaceMasked] is decided by its own unit and the four
    that follow it. *)
Lemma replaceMasked_lookup s (i : nat) :
  replaceMasked s !! i =
  (λ c, if isDigit c && lookahead4 (drop (S i) s) then bullet else c) <$> s !! i.
Proof.
  revert i; induction s as [|c s IH]; intros [|i]; simpl; auto.
Qed.

Lemma lookahead4_length rest : lookahead4 rest = true → (4 ≤ length rest)%nat.
Proof. unfold lookahead4. intros [H4%Nat.leb_le _]%andb_prop. done. Qed.

(** Past six units the mask is the replaced head and the last four units. *)
Lemma maskPhone_long phone :
  (6 < length phone)%nat →
  maskPhone phone =
  replaceMasked (take (length phone - 4) phone) ++ drop (length phone - 4) phone.
Proof.
  intros Hlen. unfold maskPhone.
  destruct (Nat.leb_spec (length phone) 6); [lia|].
  change (-4) with (- Z.of_nat 4).
  by rewrite slice_drop_last, sliceFrom_last by lia.
Qed.

Lemma length_maskPhone phone : length (maskPhone phone) = length phone.
Proof.
  destruct (decide (length phone ≤ 6)%nat) as [Hle|Hgt].
  - unfold maskPhone. by destruct (Nat.leb_spec (length phone) 6); [|lia].
  - rewrite maskPhone_long by lia.
    rewrite length_app, length_replaceMasked, length_take, length_drop. lia.
Qed.

(** A unit of the mask is the input's unit, or a bullet over a digit that
    lies more than eight positions before the end. *)
Lemma maskPhone_lookup phone (i : nat) c :
  phone !! i = Some c →
  maskPhone phone !! i = Some c
  ∨ (maskPhone phone !! i = Some bullet ∧ isDigit c = true
     ∧ (i + 8 < length phone)%nat).
Proof.
  intros Hi.
  destruct (decide (length phone ≤ 6)%nat) as [Hle|Hgt].
  { left. unfold maskPhone. by destruct (Nat.leb_spec (length phone) 6); [|lia]. }
  rewrite maskPhone_long by lia.
  set (m := (length phone - 4)%nat).
  assert (Hm : length (replaceMasked (take m phone)) = m).
  { rewrite length_replaceMasked, length_take. lia. }
  destruct (decide (i < m)%nat) as [Him|Him].
  - rewrite lookup_app_l by lia.
    rewrite replaceMasked_lookup, lookup_take_lt, Hi by done. simpl.
    destruct (isDigit c) eqn:Hc; [|by left]. simpl.
    destruct (lookahead4 _) eqn:Hl; [|by left].
    right. apply lookahead4_length in Hl.
    rewrite length_drop, length_take in Hl. split; [done|]. split; [done|]. lia.
  - left. rewrite lookup_app_r by lia.
    rewrite Hm, lookup_drop, <- Hi. f_equal. lia.
Qed.

Example maskPhone_e164 :
  maskPhone (js "+15551234567") = js "+" ++ [bullet; bullet; bullet] ++ js "51234567".
Proof. reflexivity. Qed.

Example maskPhone_seven : maskPhone (js "5551234") = js "5551234".
Proof. reflexivity. Qed.

(** A digit far from the end stays when a line terminator is among the four
    units after it. *)
Example maskPhone_line_feed :
  maskPhone (js "1234" ++ [10%N] ++ js "67890") = js "1234" ++ [10%N] ++ js "67890".
Proof. reflexivity. Qed.

(** C9. A phone string of at most six units is returned unchanged. A longer
    one keeps its length; a unit changes only into a bullet, and only where
    the input has a digit more than eight positions before the end; so the
    last eight units of the output are the last eight of the input. *)
Theorem maskPhone_keeps_last_eight phone :
  ((length phone ≤ 6)%nat → maskPhone phone = phone)
  ∧ length (maskPhone phone) = length phone
  ∧ (∀ (i : nat) c, phone !! i = Some c → maskPhone phone !! i ≠ Some c →
       maskPhone phone !! i = Some bullet ∧ isDigit c = true
       ∧ (8 < length phone - i)%nat)
  ∧ sliceFrom (maskPhone phone) (-8) = sliceFrom phone (-8).
Proof.
  split; [|split; [|split]].
  - intros Hle. unfold maskPhone. by destruct (Nat.leb_spec (length phone) 6); [|lia].
  - apply length_maskPhone.
  - intros i c Hi Hne.
    destruct (maskPhone_lookup phone i c Hi) as [Hsame|(Hb & Hd & Hpos)]; [done|].
    split; [done|]. split; [done|]. lia.
  - change (-8) with (- Z.of_nat 8).
    rewrite !sliceFrom_last, length_maskPhone by lia.
    apply list_eq. intros j. rewrite !lookup_drop.
    destruct (phone !! (length phone - 8 + j)%nat) as [c|] eqn:Hj.
    + destruct (maskPhone_lookup phone _ c Hj) as [Hsame|(_ & _ & Hpos)]; [done|].
      apply lookup_lt_Some in Hj. lia.
    + apply lookup_ge_None. rewrite length_maskPhone.
      by apply lookup_ge_None.
Qed.

End MaskFacts.

(** ** The reminder card *)

Section CardFacts.
Context `{DateLib}.

Implicit Types s : jsstring.

(** C10. [parseAsUTC s] parses [s] with ["Z"] appended when [s] neither ends
    with ["Z"] nor holds a ['+'], and parses [s] unchanged otherwise; a
    timestamp with a negative offset such as ["-05:00"] gets the ["Z"]
    appended. *)
Theorem parseAsUTC_appends_Z s :
  ((¬ (∃ p, s = p ++ js "Z") ∧ 43%N ∉ s) → parseAsUTC s = newDate (s ++ js "Z"))
  ∧ (((∃ p, s = p ++ js "Z") ∨ 43%N ∈ s) → parseAsUTC s = newDate s)
  ∧ parseAsUTC (js "2025-03-01T10:00:00-05:00")
    = newDate (js "2025-03-01T10:00:00-05:00Z").
Proof.
  unfold parseAsUTC. split; [|split].
  - intros [Hz Hplus].
    destruct (endsWith s (js "Z")) eqn:Ez.
    { apply endsWith_spec in Ez. contradiction. }
    destruct (includes s (js "+")) eqn:Ep.
    { apply includes_char in Ep. contradiction. }
    done.
  - intros [Hz|Hplus].
    + apply endsWith_spec in Hz. by rewrite Hz.
    + apply includes_char in Hplus. change (js "+") with [43%N].
      rewrite Hplus. by rewrite andb_false_r.
  - done.
Qed.

(** Two reminders that differ at most in [timezone]. *)
Definition sameButTimezone (r1 r2 : Reminder) : Prop :=
  r2 = withTimezone (timezone r2) r1.

(** C6. Two reminders that differ only in [timezone] have the same countdown
    state after the same runs of the effect and the interval, whatever the
    clocks of the runs; and, whatever the countdown state, when both cards
    render the views agree on everything but the calendar date and the clock
    time. *)
Theorem countdown_ignores_timezone r1 r2 :
  sameButTimezone r1 r2 →
  (∀ runs, countdown r1 runs = countdown r2 runs)
  ∧ ∀ timeLeft open v1 v2,
      ReminderCard r1 timeLeft open = Some v1 →
      ReminderCard r2 timeLeft open = Some v2 →
      withoutDateTime v1 = withoutDateTime v2.
Proof.
  unfold sameButTimezone. intros ->.
  split; [done|].
  intros timeLeft open v1 v2. unfold ReminderCard. simpl.
  repeat (match goal with |- context [format ?d ?p] => destruct (format d p) end);
    try done.
  by intros [= <-] [= <-].
Qed.

(** The dialog is open only if Edit was clicked at a moment when the card's
    reminder was scheduled. *)
Lemma cardAfter_open_was_clicked (r : Reminder) steps :
  (cardAfter r steps).2 = true →
  ∃ pre post, steps = pre ++ userEvent clickEdit :: post
    ∧ status (cardAfter r pre).1 = scheduled.
Proof.
  induction steps as [|s steps IH] using rev_ind; [done|].
  unfold cardAfter. rewrite fold_left_app. simpl.
  fold (cardAfter r steps).
  assert (Hkeep : (cardAfter r steps).2 = true →
    ∃ pre post, steps ++ [s] = pre ++ userEvent clickEdit :: post
      ∧ status (cardAfter r pre).1 = scheduled).
  { intros (pre & post & -> & Hs)%IH. exists pre, (post ++ [s]).
    split; [by rewrite <- app_assoc|done]. }
  destruct s as [e|r']; simpl; [|done].
  destruct e; simpl; try done.
  destruct (bool_decide_reflect (EditButton ∈ actions (cardAfter r steps).1))
    as [Hin|]; [|done].
  intros _. exists steps, []. split; [done|].
  revert Hin. unfold actions.
  destruct (decide (status (cardAfter r steps).1 = scheduled)) as [|Hne]; [done|].
  rewrite bool_decide_false by done. by intros ?%list_elem_of_singleton.
Qed.

(** C7, as amended. The card shows the Edit button exactly for a scheduled
    reminder and the Delete button always; for a completed or failed
    reminder Delete is the only action. On a scheduled reminder a click on
    Edit opens the edit dialog. The dialog goes from closed to open only by
    a click on Edit while the card's reminder is scheduled: whenever it is
    open, also after refetches changed the reminder, such a click came
    before; on a card whose reminder never is scheduled no event opens it.
    Success, cancel and dismiss close it. *)
Theorem edit_only_when_scheduled (r : Reminder) :
  (EditButton ∈ actions r ↔ status r = scheduled)
  ∧ DeleteButton ∈ actions r
  ∧ (status r ≠ scheduled → actions r = [DeleteButton])
  ∧ (status r = scheduled → ∀ b, onEvent r b clickEdit = true)
  ∧ (∀ b e, onEvent r b e = true →
       b = true ∨ (e = clickEdit ∧ status r = scheduled))
  ∧ (∀ steps, (cardAfter r steps).2 = true →
       ∃ pre post, steps = pre ++ userEvent clickEdit :: post
         ∧ status (cardAfter r pre).1 = scheduled)
  ∧ (status r ≠ scheduled →
       ∀ es, cardAfter r (userEvent <$> es) = (r, false))
  ∧ (∀ b, onEvent r b formSuccess = false ∧ onEvent r b formCancel = false
          ∧ onEvent r b dialogDismiss = false).
Proof.
  assert (Hiff : EditButton ∈ actions r ↔ status r = scheduled).
  { unfold actions. destruct (decide (status r = scheduled)) as [Hs|Hs].
    - rewrite bool_decide_true by done. split; [done|]. intros _. by left.
    - rewrite bool_decide_false by done. split; [|done].
      intros Hin%list_elem_of_singleton. discriminate. }
  assert (Hopen : ∀ b e, onEvent r b e = true →
                    b = true ∨ (e = clickEdit ∧ status r = scheduled)).
  { intros b e. destruct e; simpl; try done; try (by left).
    destruct (bool_decide_reflect (EditButton ∈ actions r)) as [Hin|]; [|by left].
    intros _. right. split; [done|]. by apply Hiff. }
  split; [done|]. split.
  { unfold actions. apply elem_of_app. right. by left. }
  split.
  { intros Hs. unfold actions. by rewrite bool_decide_false. }
  split.
  { intros Hs b. simpl. rewrite bool_decide_true; [done|]. by apply Hiff. }
  split; [done|]. split; [apply cardAfter_open_was_clicked|].
  split; [|done].
  intros Hs es. unfold cardAfter.
  induction es as [|e es IH] using rev_ind; [done|].
  rewrite fmap_app, fold_left_app, IH. simpl. f_equal.
  destruct (onEvent r false e) eqn:He; [|done].
  by destruct (Hopen false e He) as [|[_ ?]].
Qed.

(** Whatever the status tab, the list asks the API for the reminders by
    ascending [scheduled_at]. *)
Lemma listQuery_ascending f :
  q_sort_by (listQuery f) = js "scheduled_at" ∧ q_sort_order (listQuery f) = js "asc".
Proof. by destruct f. Qed.

End CardFacts.

(** ** The engine: status and field invariants, conditional writes *)

Section EngineFacts.

Import Engine.

Implicit Types (s : gmap nat Engine.Reminder) (r : Engine.Reminder) (i : nat).

Lemma conditionalWrite_lookup i j f s :
  (conditionalWrite i f s).1 !! j =
  match s !! i with
  | Some r =>
      if decide (Engine.status r = Scheduled)
      then (if decide (i = j) then Some (f r) else s !! j)
      else s !! j
  | None => s !! j
  end.
Proof.
  unfold conditionalWrite. destruct (s !! i) as [r|] eqn:Hi; [|done].
  destruct (decide (Engine.status r = Scheduled)); [|done].
  simpl. apply lookup_insert.
Qed.

(** A conditional write keeps a property of all records when the written
    record has it. *)
Lemma conditionalWrite_preserves (P : Engine.Reminder → Prop) i f s :
  (∀ r, Engine.status r = Scheduled → P r → P (f r)) →
  (∀ j r, s !! j = Some r → P r) →
  ∀ j r, (conditionalWrite i f s).1 !! j = Some r → P r.
Proof.
  intros Hf Hs j r. rewrite conditionalWrite_lookup.
  destruct (s !! i) as [r0|] eqn:Hi; [|apply Hs].
  destruct (decide (Engine.status r0 = Scheduled)) as [Hsch|]; [|apply Hs].
  destruct (decide (i = j)) as [->|]; [|apply Hs].
  intros [= <-]. apply Hf; [done|]. by apply (Hs j).
Qed.

(** Every mutation keeps the three invariants of section 3 on all records. *)
Lemma applyOp_preserves_invariant o s :
  storeInvariant s → storeInvariant (applyOp o s).
Proof.
  intros Hs. unfold storeInvariant.
  destruct o as [d now|i d now|i|i c now|i why now]; simpl.
  - intros j r. unfold Create. rewrite lookup_insert.
    destruct (decide (fresh (dom s) = j)); [|apply Hs].
    intros [= <-]. by unfold fieldInvariants.
  - apply conditionalWrite_preserves; [|done].
    intros r Hsch. unfold fieldInvariants. rewrite Hsch. simpl.
    intros [Hc _]. done.
  - intros j r. unfold Delete. rewrite lookup_delete.
    destruct (decide (i = j)); [done|apply Hs].
  - apply conditionalWrite_preserves; [|done].
    intros r Hsch. unfold fieldInvariants. rewrite Hsch. simpl.
    intros _. done.
  - apply conditionalWrite_preserves; [|done].
    intros r Hsch. unfold fieldInvariants. rewrite Hsch. simpl.
    intros [Hc _]. done.
Qed.

Lemma reachable_invariant s : reachable s → storeInvariant s.
Proof.
  induction 1 as [|s o _ IH].
  - intros i r. by rewrite lookup_empty.
  - by apply applyOp_preserves_invariant.
Qed.

Lemma conditionalWrite_keyed i f s :
  (∀ r, Engine.id (f r) = Engine.id r) → keyed s → keyed (conditionalWrite i f s).1.
Proof.
  intros Hf Hs j r. rewrite conditionalWrite_lookup.
  destruct (s !! i) as [r0|] eqn:Hi; [|apply Hs].
  destruct (decide _); [|apply Hs]. destruct (decide (i = j)) as [->|]; [|apply Hs].
  intros [= <-]. rewrite Hf. by apply Hs.
Qed.

Lemma applyOp_preserves_keyed o s : keyed s → keyed (applyOp o s).
Proof.
  intros Hs.
  destruct o as [d now|i d now|i|i c now|i why now]; simpl.
  - intros j r. unfold Create. rewrite lookup_insert.
    destruct (decide (fresh (dom s) = j)); [|apply Hs].
    by intros [= <-].
  - by apply conditionalWrite_keyed.
  - intros j r. unfold Delete. rewrite lookup_delete.
    destruct (decide (i = j)); [done|apply Hs].
  - by apply conditionalWrite_keyed.
  - by apply conditionalWrite_keyed.
Qed.

Lemma reachable_keyed s : reachable s → keyed s.
Proof.
  induction 1 as [|s o _ IH].
  - intros i r. by rewrite lookup_empty.
  - by apply applyOp_preserves_keyed.
Qed.

(** The Completed and the Failed invariant follow from the three of
    section 3. *)
Lemma fieldInvariants_named r :
  fieldInvariants r →
  (Engine.status r = Completed → callId r ≠ None ∧ errorMessage r = None)
  ∧ (Engine.status r = Failed → callId r = None ∧ errorMessage r ≠ None).
Proof. unfold fieldInvariants. split; intros Hs; by rewrite Hs in *. Qed.

(** C1. In every store the system can hold, and in the store any further
    transition (MarkCompleted, MarkFailed, an edit back to Scheduled, create,
    delete) makes of it, a Completed reminder has a call id and no error
    message, and a Failed one has no call id and an error message. *)
Theorem status_field_invariants s :
  reachable s →
  (∀ i r, s !! i = Some r →
     (Engine.status r = Completed → callId r ≠ None ∧ errorMessage r = None)
     ∧ (Engine.status r = Failed → callId r = None ∧ errorMessage r ≠ None))
  ∧ (∀ o i r, applyOp o s !! i = Some r →
     (Engine.status r = Completed → callId r ≠ None ∧ errorMessage r = None)
     ∧ (Engine.status r = Failed → callId r = None ∧ errorMessage r ≠ None)).
Proof.
  intros Hreach. split.
  - intros i r Hi. apply fieldInvariants_named.
    by apply (reachable_invariant s Hreach i).
  - intros o i r Hi. apply fieldInvariants_named.
    by apply (reachable_invariant _ (reachable_step s o Hreach) i).
Qed.

(** A conditional write on a reminder that is no longer Scheduled changes
    nothing and reports it. *)
Lemma conditionalWrite_handled i f s r :
  s !! i = Some r → Engine.status r ≠ Scheduled →
  conditionalWrite i f s = (s, AlreadyHandled).
Proof.
  intros Hi Hs. unfold conditionalWrite. rewrite Hi.
  by destruct (decide (Engine.status r = Scheduled)).
Qed.

Lemma conditionalWrite_success i f s r :
  s !! i = Some r → Engine.status r = Scheduled →
  conditionalWrite i f s = (<[i := f r]> s, Success).
Proof.
  intros Hi Hs. unfold conditionalWrite. rewrite Hi.
  by destruct (decide (Engine.status r = Scheduled)).
Qed.

Lemma applyMark_conditional i m now s :
  ∃ f, applyMark i m now s = conditionalWrite i f s
       ∧ ∀ r, Engine.status (f r) ≠ Scheduled.
Proof.
  destruct m as [c|why]; simpl.
  - by exists (completedRecord c now).
  - by exists (failedRecord why now).
Qed.

(** C2. MarkCompleted and MarkFailed are conditional writes. On a reminder
    that is no longer Scheduled either is a no-op reported as already
    handled. Whatever the two calls are, the second of two calls for the
    same reminder leaves the store, hence [callId] and [errorMessage], as the
    first left it and is not a success; on a Scheduled reminder the first
    succeeds and the second is already handled. *)
Theorem mark_twice_one_change i m1 m2 now1 now2 s :
  (∀ r, s !! i = Some r → Engine.status r ≠ Scheduled →
     applyMark i m1 now1 s = (s, AlreadyHandled))
  ∧ (applyMark i m2 now2 (applyMark i m1 now1 s).1).1 = (applyMark i m1 now1 s).1
  ∧ (applyMark i m2 now2 (applyMark i m1 now1 s).1).2 ≠ Success
  ∧ (∀ r, s !! i = Some r → Engine.status r = Scheduled →
     (applyMark i m1 now1 s).2 = Success
     ∧ (applyMark i m1 now1 s).1 ≠ s
     ∧ applyMark i m2 now2 (applyMark i m1 now1 s).1
       = ((applyMark i m1 now1 s).1, AlreadyHandled)).
Proof.
  destruct (applyMark_conditional i m1 now1 s) as (f1 & -> & Hf1).
  assert (Hsecond : ∀ s', ∃ f2, applyMark i m2 now2 s' = conditionalWrite i f2 s').
  { intros s'. destruct (applyMark_conditional i m2 now2 s') as (f2 & E & _). eauto. }
  destruct (Hsecond (conditionalWrite i f1 s).1) as (f2 & ->).
  split; [intros r Hi Hs; by apply (conditionalWrite_handled i f1 s r)|].
  destruct (s !! i) as [r|] eqn:Hi.
  - destruct (decide (Engine.status r = Scheduled)) as [Hs|Hs].
    + rewrite (conditionalWrite_success i f1 s r) by done. simpl.
      rewrite (conditionalWrite_handled i f2 _ (f1 r)); [|apply lookup_insert_eq|done].
      split; [done|]. split; [done|].
      intros r' [= <-] _. split; [done|]. split; [|done].
      intros E. apply (f_equal (λ m, m !! i)) in E.
      rewrite lookup_insert_eq, Hi in E. injection E as E.
      apply (Hf1 r). by rewrite E.
    + rewrite (conditionalWrite_handled i f1 s r) by done. simpl.
      rewrite (conditionalWrite_handled i f2 s r) by done.
      split; [done|]. split; [done|]. by intros r' [= <-] Hs'.
  - unfold conditionalWrite. rewrite Hi. simpl. rewrite Hi. simpl.
    split; [done|]. split; [done|]. done.
Qed.

(** ** The engine: finding and dispatching due reminders *)

#[local] Instance dueOrder_total : Total dueOrder.
Proof. intros a b. unfold dueOrder. lia. Qed.

#[local] Instance dueOrder_trans : Transitive dueOrder.
Proof. intros a b c. unfold dueOrder. lia. Qed.

Lemma FindDue_perm now s :
  FindDue now s ≡ₚ filter (isDue now) (map_to_list s).*2.
Proof. apply merge_sort_Permutation. Qed.

Lemma FindDue_elem now s r :
  r ∈ FindDue now s ↔
  (∃ i, s !! i = Some r) ∧ Engine.status r = Scheduled ∧ scheduledAt r ≤ now.
Proof.
  rewrite FindDue_perm, list_elem_of_filter, list_elem_of_fmap.
  unfold isDue. split.
  - intros [Hdue ([i r'] & -> & Hin%elem_of_map_to_list)]. eauto.
  - intros [[i Hi] Hdue]. split; [done|].
    exists (i, r). split; [done|]. by apply elem_of_map_to_list.
Qed.

Lemma FindDue_sorted now s : StronglySorted dueOrder (FindDue now s).
Proof. apply StronglySorted_merge_sort; apply _. Qed.

(** In a sorted list an earlier position holds a smaller-or-equal element. *)
Lemma StronglySorted_lookup_le {A} (R : relation A) (l : list A) (i j : nat) a b :
  StronglySorted R l → l !! i = Some a → l !! j = Some b → (i < j)%nat → R a b.
Proof.
  intros Hl. revert i j. induction Hl as [|x l Hl IH Hx]; intros i j Hi Hj Hij.
  - by rewrite lookup_nil in Hi.
  - destruct j as [|j]; [lia|]. simpl in Hj.
    destruct i as [|i]; simpl in Hi.
    + injection Hi as <-. rewrite Forall_forall in Hx.
      apply Hx. by eapply list_elem_of_lookup_2.
    + apply (IH i j); [done|done|lia].
Qed.

(** The requests and the dispatch log grow in the order the reminders are
    handed to the Dispatch Unit. *)
Lemma dispatched_fold cR gR cfg provider now (l : list Engine.Reminder) (w : World) :
  dispatched (fold_left (λ w' r, Dispatch cR gR cfg provider now r w') l w)
  = dispatched w ++ (Engine.id <$> l).
Proof.
  revert w. induction l as [|r l IH]; intros w; simpl.
  - by rewrite app_nil_r.
  - rewrite IH. unfold Dispatch.
    destruct (PlaceCall _ _ _ _ _ _) as [outcome net']. simpl.
    by rewrite <- app_assoc.
Qed.

(** C4. [FindDue now] holds exactly the records of the store that are
    Scheduled with [scheduledAt ≤ now], each once, in ascending
    [scheduledAt] order; a tick dispatches them in that order, so of two
    due at T1 < T2 the one due at T1 is dispatched first. *)
Theorem FindDue_exact_sorted_dispatch_order now s :
  (∀ r, r ∈ FindDue now s ↔
     (∃ i, s !! i = Some r) ∧ Engine.status r = Scheduled ∧ scheduledAt r ≤ now)
  ∧ FindDue now s ≡ₚ filter (isDue now) (map_to_list s).*2
  ∧ StronglySorted dueOrder (FindDue now s)
  ∧ (∀ cR gR cfg provider w, store w = s →
       dispatched (Tick cR gR cfg provider now w)
       = dispatched w ++ (Engine.id <$> FindDue now s))
  ∧ (∀ (i j : nat) r1 r2,
       FindDue now s !! i = Some r1 → FindDue now s !! j = Some r2 →
       scheduledAt r1 < scheduledAt r2 → (i < j)%nat).
Proof.
  split; [apply FindDue_elem|]. split; [apply FindDue_perm|].
  split; [apply FindDue_sorted|]. split.
  - intros cR gR cfg provider w <-. unfold Tick. apply dispatched_fold.
  - intros i j r1 r2 Hi Hj Hlt.
    destruct (decide (i < j)%nat) as [|Hge]; [done|]. exfalso.
    destruct (decide (i = j)) as [->|Hne].
    + rewrite Hi in Hj. injection Hj as <-. lia.
    + assert (Hle : dueOrder r2 r1).
      { apply (StronglySorted_lookup_le dueOrder (FindDue now s) j i);
          [apply FindDue_sorted|done|done|lia]. }
      unfold dueOrder in Hle. lia.
Qed.

(** Without configuration [PlaceCall] fails at once, whatever the provider
    would do, and sends nothing. *)
Lemma PlaceCall_unconfigured cR cfg provider phone msg net :
  configured cfg = false →
  PlaceCall cR cfg provider phone msg net
  = (callFailure {| kind := ConfigurationError; reason := cR |}, net).
Proof. intros Hc. unfold PlaceCall. by rewrite Hc. Qed.

(** C3. When the provider configuration is absent, dispatching a due
    reminder makes no network call and leaves the reminder Failed, with the
    configuration reason as its error message; the outcome does not depend on
    the provider, and the dispatch returns a world: the failure is a value,
    not an exception. *)
Theorem unconfigured_dispatch_fails cR gR cfg provider now r (w : World) :
  configured cfg = false →
  store w !! Engine.id r = Some r →
  isDue now r →
  requests (Dispatch cR gR cfg provider now r w) = requests w
  ∧ (∃ r', store (Dispatch cR gR cfg provider now r w) !! Engine.id r = Some r'
        ∧ Engine.status r' = Failed
        ∧ errorMessage r' = Some cR
        ∧ callId r' = callId r)
  ∧ (∀ provider', Dispatch cR gR cfg provider' now r w
                  = Dispatch cR gR cfg provider now r w).
Proof.
  intros Hcfg Hr [Hsch _]. unfold Dispatch.
  assert (Hplace : ∀ p, PlaceCall cR cfg p (phoneNumber r) (Engine.message r)
                          (requests w)
                        = (callFailure {| kind := ConfigurationError; reason := cR |},
                           requests w)).
  { intros p. by apply PlaceCall_unconfigured. }
  rewrite Hplace. simpl. split; [done|]. split.
  - unfold MarkFailed. rewrite (conditionalWrite_success _ _ _ r) by done.
    simpl. exists (failedRecord cR now r). by rewrite lookup_insert_eq.
  - intros p. by rewrite Hplace.
Qed.

(** Without configuration a whole tick sends nothing. *)
Lemma unconfigured_tick_sends_nothing cR gR cfg provider now (w : World) :
  configured cfg = false →
  requests (Tick cR gR cfg provider now w) = requests w.
Proof.
  intros Hcfg. unfold Tick.
  generalize (FindDue now (store w)). intros l.
  revert w. induction l as [|r l IH]; intros w; simpl; [done|].
  rewrite IH. unfold Dispatch.
  by rewrite PlaceCall_unconfigured.
Qed.

(** Without configuration the store after a dispatch is the store after
    [MarkFailed] with the configuration reason. *)
Lemma Dispatch_unconfigured_store cR gR cfg provider now r (w : World) :
  configured cfg = false →
  store (Dispatch cR gR cfg provider now r w)
  = (MarkFailed (Engine.id r) cR now (store w)).1.
Proof. intros Hcfg. unfold Dispatch. by rewrite PlaceCall_unconfigured. Qed.

(** A record that is not Scheduled survives any number of failed marks. *)
Lemma failed_marks_keep_handled cR now (l : list Engine.Reminder) s i v :
  s !! i = Some v → Engine.status v ≠ Scheduled →
  fold_left (λ s' r, (MarkFailed (Engine.id r) cR now s').1) l s !! i = Some v.
Proof.
  revert s. induction l as [|r0 l IH]; intros s Hi Hv; simpl; [done|].
  apply IH; [|done]. unfold MarkFailed. rewrite conditionalWrite_lookup.
  destruct (s !! Engine.id r0) as [v0|] eqn:H0; [|done].
  destruct (decide (Engine.status v0 = Scheduled)) as [Hs|]; [|done].
  destruct (decide (Engine.id r0 = i)) as [E|]; [|done].
  rewrite E, Hi in H0. injection H0 as ->. done.
Qed.

Lemma failed_marks_reach cR now (l : list Engine.Reminder) s r :
  r ∈ l → s !! Engine.id r = Some r → Engine.status r = Scheduled →
  (∀ r', r' ∈ l → Engine.id r' = Engine.id r → r' = r) →
  fold_left (λ s' r0, (MarkFailed (Engine.id r0) cR now s').1) l s !! Engine.id r
  = Some (failedRecord cR now r).
Proof.
  revert s. induction l as [|r0 l IH]; intros s Hin Hr Hs Huniq; simpl.
  { by apply elem_of_nil in Hin. }
  destruct (decide (Engine.id r0 = Engine.id r)) as [E|Hne].
  - assert (r0 = r) as -> by (apply Huniq; [by left|done]).
    apply failed_marks_keep_handled; [|done].
    unfold MarkFailed. rewrite (conditionalWrite_success _ _ _ r) by done.
    apply lookup_insert_eq.
  - apply IH.
    + apply elem_of_cons in Hin as [->|Hin]; done.
    + unfold MarkFailed. rewrite conditionalWrite_lookup.
      destruct (s !! Engine.id r0) as [v0|]; [|done].
      destruct (decide _); [|done]. by destruct (decide (Engine.id r0 = Engine.id r)).
    + done.
    + intros r' Hr'. apply Huniq. by right.
Qed.

(** Without configuration one tick leaves every due reminder Failed with the
    configuration reason: none stays Scheduled. *)
Lemma unconfigured_tick_fails_due cR gR cfg provider now (w : World) r :
  configured cfg = false → keyed (store w) → r ∈ FindDue now (store w) →
  store (Tick cR gR cfg provider now w) !! Engine.id r
  = Some (failedRecord cR now r).
Proof.
  intros Hcfg Hkey Hdue. unfold Tick.
  assert (Hfold : ∀ l w0,
    store (fold_left (λ w' r0, Dispatch cR gR cfg provider now r0 w') l w0)
    = fold_left (λ s' r0, (MarkFailed (Engine.id r0) cR now s').1) l (store w0)).
  { induction l as [|r0 l IH]; intros w0; simpl; [done|].
    by rewrite IH, Dispatch_unconfigured_store. }
  rewrite Hfold.
  pose proof Hdue as ([i Hi] & Hs & _)%FindDue_elem.
  pose proof (Hkey i r Hi) as <-.
  apply failed_marks_reach; [done|done|done|].
  intros r' ([j Hj] & _ & _)%FindDue_elem E.
  pose proof (Hkey j r' Hj) as <-. rewrite E, Hi in Hj. by injection Hj.
Qed.

End EngineFacts.

(* ===================================================================== *)
(** * Worked instances                                                     *)
(* ===================================================================== *)

Section Instances.

(** A stand-in for the date functions: every non-empty text is one valid
    instant, the zone shift is the identity, and the formatters echo. *)
Definition fixtureDates : DateLib :=
  {| newDate := λ s, if truthy s then Some 2000000000000 else None;
     toISOString := λ d, match d with
                         | Some _ => Some (js "2033-05-18T03:33:20.000Z")
                         | None => None
                         end;
     toZonedTime := λ d _, d;
     format := λ d pattern, match d with Some _ => Some pattern | None => None end;
     formatDistanceToNow := λ d _, match d with
                                   | Some _ => Some (js "about 1 hour")
                                   | None => None
                                   end |}.

Definition fixtureForm : FormState :=
  {| s_title := js "Dentist";
     s_message := js "Bring the insurance card";
     phoneDisplay := js "+1 (555) 123-4567";
     s_date := js "2033-05-18";
     s_time := js "03:33";
     s_timezone := js "Europe/Paris" |}.

(** The form above submits [+15551234567]. *)
Lemma submitted_phone_canonical_witness :
  ∃ m, @handleSubmit fixtureDates None fixtureForm 1700000000000 = Mutate m
    ∧ ∃ first rest,
        submittedPhone m = Some (43%N :: first :: rest)
        ∧ first :: rest = stripNonDigits (phoneDisplay fixtureForm)
        ∧ (49 ≤ first ≤ 57)%N
        ∧ forallb isDigit (first :: rest) = true
        ∧ (7 ≤ length (first :: rest) ≤ 15)%nat
        ∧ testE164 (43%N :: first :: rest) = true.
Proof.
  eexists. split; [vm_compute; reflexivity|].
  apply (@submitted_phone_canonical fixtureDates None fixtureForm 1700000000000).
  vm_compute. reflexivity.
Defined.

Definition fixtureReminder : Api.Reminder :=
  {| Api.id := 7; Api.title := js "Dentist"; Api.message := js "Bring the card";
     phone_number := js "+15551234567";
     scheduled_at := js "2033-05-18T03:33:20";
     Api.timezone := js "UTC"; Api.status := scheduled;
     call_id := None; error_message := None;
     created_at := js "2025-01-01T00:00:00"; updated_at := js "2025-01-01T00:00:00" |}.

(** The same reminder in two time zones counts down alike. *)
Lemma countdown_ignores_timezone_witness :
  sameButTimezone fixtureReminder (withTimezone (js "Asia/Tokyo") fixtureReminder)
  ∧ @countdown fixtureDates fixtureReminder [1700000000000; 2000000000001]
    = @countdown fixtureDates (withTimezone (js "Asia/Tokyo") fixtureReminder)
        [1700000000000; 2000000000001].
Proof.
  assert (Hsame : sameButTimezone fixtureReminder
                    (withTimezone (js "Asia/Tokyo") fixtureReminder))
    by reflexivity.
  split; [exact Hsame|].
  exact (proj1 (@countdown_ignores_timezone fixtureDates fixtureReminder
                  (withTimezone (js "Asia/Tokyo") fixtureReminder) Hsame)
               [1700000000000; 2000000000001]).
Defined.

(** The reminder of [fixtureReminder] once its call has been placed. *)
Definition fixtureCompleted : Api.Reminder :=
  {| Api.id := 7; Api.title := js "Dentist"; Api.message := js "Bring the card";
     phone_number := js "+15551234567";
     scheduled_at := js "2033-05-18T03:33:20";
     Api.timezone := js "UTC"; Api.status := completed;
     call_id := Some (js "abc"); error_message := None;
     created_at := js "2025-01-01T00:00:00"; updated_at := js "2033-05-18T03:33:40" |}.

(** C7 on a card whose reminder changes under an open dialog: the user
    clicks Edit while the reminder is scheduled, the list refetches and the
    reminder is completed. The card then shows Delete as its only button, yet
    the edit dialog is still open on the completed reminder, and the form in
    it submits an update of that reminder: it is not the case that a
    completed reminder can only be deleted. *)
Lemma edit_dialog_survives_completion :
  cardAfter fixtureReminder [userEvent clickEdit; reminderChanged fixtureCompleted]
  = (fixtureCompleted, true)
  ∧ Api.status fixtureCompleted = completed
  ∧ (∃ v, @ReminderCard fixtureDates fixtureCompleted (js "") true = Some v
          ∧ v_actions v = [DeleteButton] ∧ v_editDialog v = true)
  ∧ (∃ d, @handleSubmit fixtureDates (Some fixtureCompleted) fixtureForm 1700000000000
          = Mutate (updateMutation (Api.id fixtureCompleted) d))
  ∧ ¬ (∀ r steps, Api.status (cardAfter r steps).1 ≠ scheduled →
                  (cardAfter r steps).2 = false).
Proof.
  assert (Htrace : cardAfter fixtureReminder
                     [userEvent clickEdit; reminderChanged fixtureCompleted]
                   = (fixtureCompleted, true)) by (vm_compute; reflexivity).
  split; [exact Htrace|]. split; [reflexivity|].
  split; [eexists; split; [vm_compute; reflexivity|split; reflexivity]|].
  split; [eexists; vm_compute; reflexivity|].
  intros Hall.
  specialize (Hall fixtureReminder
                [userEvent clickEdit; reminderChanged fixtureCompleted]).
  rewrite Htrace in Hall. simpl in Hall.
  assert (Hopen : true = false) by (apply Hall; discriminate).
  discriminate Hopen.
Qed.

Definition fixtureInput : Engine.ReminderInput :=
  {| Engine.i_title := "Dentist"; Engine.i_message := "Bring the card";
     Engine.i_phoneNumber := "+15551234567"; Engine.i_scheduledAt := 100;
     Engine.i_timezone := "UTC" |}.

(** A store with one reminder, created at 50 and failed at 130. *)
Definition fixtureStore : gmap nat Engine.Reminder :=
  Engine.applyOp (Engine.opMarkFailed 0 "timeout" 130)
    (Engine.applyOp (Engine.opCreate fixtureInput 50) ∅).

Lemma status_field_invariants_witness :
  Engine.reachable fixtureStore
  ∧ ∀ i r, fixtureStore !! i = Some r →
      (Engine.status r = Engine.Completed →
         Engine.callId r ≠ None ∧ Engine.errorMessage r = None)
      ∧ (Engine.status r = Engine.Failed →
         Engine.callId r = None ∧ Engine.errorMessage r ≠ None).
Proof.
  assert (Hreach : Engine.reachable fixtureStore).
  { unfold fixtureStore. apply Engine.reachable_step, Engine.reachable_step.
    apply Engine.reachable_empty. }
  split; [exact Hreach|].
  exact (proj1 (status_field_invariants fixtureStore Hreach)).
Defined.

Definition fixtureDue : Engine.Reminder :=
  {| Engine.id := 0; Engine.title := "Dentist"; Engine.message := "Bring the card";
     Engine.phoneNumber := "+15551234567"; Engine.scheduledAt := 100;
     Engine.timezone := "UTC"; Engine.status := Engine.Scheduled;
     Engine.callId := None; Engine.errorMessage := None;
     Engine.createdAt := 50; Engine.updatedAt := 50 |}.

Definition fixtureWorld : Engine.World :=
  {| Engine.store := {[ 0%nat := fixtureDue ]};
     Engine.requests := [];
     Engine.dispatched := [] |}.

Definition noConfig : Engine.ProviderConfig :=
  {| Engine.apiKey := None; Engine.phoneNumberId := None |}.

(** Dispatching the due reminder without configuration: no request, status
    Failed, the configuration reason stored. *)
Lemma unconfigured_dispatch_fails_witness :
  Engine.configured noConfig = false
  ∧ Engine.store fixtureWorld !! Engine.id fixtureDue = Some fixtureDue
  ∧ Engine.isDue 130 fixtureDue
  ∧ Engine.requests
      (Engine.Dispatch "not configured"%string "unexpected error"%string noConfig
         (λ _, Engine.accepted "abc"%string) 130 fixtureDue fixtureWorld) = []
  ∧ ∃ r', Engine.store
            (Engine.Dispatch "not configured"%string "unexpected error"%string noConfig
               (λ _, Engine.accepted "abc"%string) 130 fixtureDue fixtureWorld)
            !! Engine.id fixtureDue = Some r'
          ∧ Engine.status r' = Engine.Failed
          ∧ Engine.errorMessage r' = Some "not configured"%string
          ∧ Engine.callId r' = Engine.callId fixtureDue.
Proof.
  assert (H1 : Engine.configured noConfig = false) by reflexivity.
  assert (H2 : Engine.store fixtureWorld !! Engine.id fixtureDue = Some fixtureDue)
    by (vm_compute; reflexivity).
  assert (H3 : Engine.isDue 130 fixtureDue) by (split; [reflexivity|simpl; lia]).
  split; [exact H1|]. split; [exact H2|]. split; [exact H3|].
  pose proof (unconfigured_dispatch_fails "not configured"%string "unexpected error"%string
                noConfig (λ _, Engine.accepted "abc"%string) 130 fixtureDue fixtureWorld
                H1 H2 H3) as (Hreq & Hrec & _).
  split; [exact Hreq|exact Hrec].
Defined.

End Instances.

(* ===================================================================== *)
(** * Further properties of the form                                       *)
(* ===================================================================== *)

Section FormatFacts.

Implicit Types s a b d : jsstring.

(** [formatPhoneDisplay] after its first line: the layout of the digits. *)
Definition layoutDigits (digits : jsstring) : jsstring :=
  let n := length digits in
  if (n =? 0)%nat then js "+"
  else if (n <=? 1)%nat then js "+" ++ digits
  else if (n <=? 4)%nat then
    js "+" ++ slice digits 0 1 ++ js " " ++ sliceFrom digits 1
  else if (n <=? 7)%nat then
    js "+" ++ slice digits 0 1 ++ js " (" ++ slice digits 1 4 ++ js ") "
       ++ sliceFrom digits 4
  else
    js "+" ++ slice digits 0 1 ++ js " (" ++ slice digits 1 4 ++ js ") "
       ++ slice digits 4 7 ++ js "-" ++ slice digits 7 11.

Lemma formatPhoneDisplay_layout s :
  formatPhoneDisplay s = layoutDigits (stripNonDigits s).
Proof. reflexivity. Qed.

(** The layout reads at most eleven digits. *)
Lemma layoutDigits_take d : layoutDigits (take 11 d) = layoutDigits d.
Proof.
  destruct (decide (length d ≤ 11)%nat) as [Hle|Hgt].
  { by rewrite take_ge. }
  unfold layoutDigits. rewrite length_take, Nat.min_l by lia.
  destruct (Nat.eqb_spec (length d) 0); [lia|].
  destruct (Nat.leb_spec (length d) 1); [lia|].
  destruct (Nat.leb_spec (length d) 4); [lia|].
  destruct (Nat.leb_spec (length d) 7); [lia|].
  simpl. rewrite !slice_nonneg by lia.
  change (Z.to_nat 0) with 0%nat; change (Z.to_nat 1) with 1%nat;
  change (Z.to_nat 4) with 4%nat; change (Z.to_nat 7) with 7%nat;
  change (Z.to_nat 11) with 11%nat.
  rewrite !take_take. done.
Qed.

(** X1. Two inputs get the same display text exactly when their first eleven
    digits agree: every other character typed, and every digit after the
    eleventh, is ignored. *)
Theorem formatPhoneDisplay_same_iff a b :
  formatPhoneDisplay a = formatPhoneDisplay b
  ↔ take 11 (stripNonDigits a) = take 11 (stripNonDigits b).
Proof.
  split.
  - intros E. by rewrite <- !formatPhoneDisplay_digits, E.
  - intros E. rewrite !formatPhoneDisplay_layout.
    by rewrite <- (layoutDigits_take (stripNonDigits a)), E, layoutDigits_take.
Qed.

(** X2. Formatting a display text again changes nothing, so
    [handlePhoneChange] on what it wrote itself is stable. *)
Theorem formatPhoneDisplay_idempotent s :
  formatPhoneDisplay (formatPhoneDisplay s) = formatPhoneDisplay s
  ∧ ∀ st, handlePhoneChange (handlePhoneChange st s) (formatPhoneDisplay s)
          = handlePhoneChange st s.
Proof.
  assert (E : formatPhoneDisplay (formatPhoneDisplay s) = formatPhoneDisplay s).
  { rewrite (formatPhoneDisplay_layout (formatPhoneDisplay s)).
    rewrite formatPhoneDisplay_digits, layoutDigits_take.
    by rewrite formatPhoneDisplay_layout. }
  split; [done|]. intros st. unfold handlePhoneChange. simpl. by rewrite E.
Qed.

(** The lengths of the punctuation. *)
Ltac length_literals :=
  repeat match goal with
  | |- context [length (js ?l)] =>
      let v := eval vm_compute in (length (js l)) in
      change (length (js l)) with v
  end.

(** The characters a display text is made of. *)
Definition isDisplayChar (c : N) : bool :=
  isDigit c || bool_decide (c ∈ js "+ ()-").

Lemma forallb_digits_display d :
  forallb isDigit d = true → forallb isDisplayChar d = true.
Proof.
  induction d as [|c d IH]; simpl; [done|].
  intros [Hc Hd]%andb_prop. unfold isDisplayChar at 1. rewrite Hc. simpl. auto.
Qed.

(** X3. A display text always starts with ['+'], has at most 17 code
    units, and holds nothing but digits, ['+'], blanks, parentheses and
    ['-']. *)
Theorem formatPhoneDisplay_shape s :
  (∃ rest, formatPhoneDisplay s = 43%N :: rest)
  ∧ (length (formatPhoneDisplay s) ≤ 17)%nat
  ∧ forallb isDisplayChar (formatPhoneDisplay s) = true.
Proof.
  rewrite formatPhoneDisplay_layout.
  pose proof (stripNonDigits_all_digits s) as Hd.
  set (d := stripNonDigits s) in *.
  assert (Hpiece : ∀ i j : nat, forallb isDisplayChar (drop i (take j d)) = true).
  { intros i j. by apply forallb_digits_display, forallb_drop, forallb_take. }
  assert (Hrest : ∀ i : nat, forallb isDisplayChar (drop i d) = true).
  { intros i. by apply forallb_digits_display, forallb_drop. }
  unfold layoutDigits.
  rewrite !slice_nonneg, !sliceFrom_nonneg by lia.
  change (Z.to_nat 0) with 0%nat; change (Z.to_nat 1) with 1%nat;
  change (Z.to_nat 4) with 4%nat; change (Z.to_nat 7) with 7%nat;
  change (Z.to_nat 11) with 11%nat.
  destruct (Nat.eqb_spec (length d) 0) as [H0|H0].
  { split; [by eexists|]. split; [simpl; lia|by vm_compute]. }
  destruct (Nat.leb_spec (length d) 1) as [H1|H1].
  { split; [by eexists|]. split.
    - rewrite length_app. length_literals. lia.
    - rewrite forallb_app, (forallb_digits_display d Hd). by vm_compute. }
  destruct (Nat.leb_spec (length d) 4) as [H4|H4].
  { split; [by eexists|]. split.
    - rewrite !length_app, !length_drop, !length_take. length_literals. lia.
    - rewrite !forallb_app, Hpiece, Hrest. by vm_compute. }
  destruct (Nat.leb_spec (length d) 7) as [H7|H7].
  { split; [by eexists|]. split.
    - rewrite !length_app, !length_drop, !length_take. length_literals. lia.
    - rewrite !forallb_app, !Hpiece, Hrest. by vm_compute. }
  split; [by eexists|]. split.
  - rewrite !length_app, !length_drop, !length_take. length_literals. lia.
  - rewrite !forallb_app, !Hpiece. by vm_compute.
Qed.

End FormatFacts.

Section TrimFacts.

Implicit Types s p q : jsstring.

(** [trimStart] removes a prefix of white space and stops at the first
    other unit. *)
Lemma trimStart_split s :
  ∃ p, s = p ++ trimStart s ∧ forallb isWhiteSpace p = true.
Proof.
  induction s as [|c s (p & E & Hp)]; simpl.
  - by exists [].
  - destruct (isWhiteSpace c) eqn:Hc.
    + exists (c :: p). simpl. rewrite Hc, Hp. split; [by f_equal|done].
    + by exists [].
Qed.

Lemma trimStart_head s c rest :
  trimStart s = c :: rest → isWhiteSpace c = false.
Proof.
  induction s as [|c0 s IH]; simpl; [done|].
  destruct (isWhiteSpace c0) eqn:Hc; [done|]. by intros [= <- _].
Qed.

(** [trim] cuts white space off both ends and nothing else: the input is
    white space, the result, white space; and a non-empty result begins and
    ends with a unit that is not white space. *)
Lemma trim_split s :
  ∃ p q, s = p ++ trim s ++ q
    ∧ forallb isWhiteSpace p = true ∧ forallb isWhiteSpace q = true
    ∧ (∀ c, head (trim s) = Some c → isWhiteSpace c = false)
    ∧ (∀ c, last (trim s) = Some c → isWhiteSpace c = false).
Proof.
  unfold trim.
  destruct (trimStart_split s) as (p & Es & Hp).
  destruct (trimStart_split (rev (trimStart s))) as (q' & Er & Hq).
  set (m := trimStart (rev (trimStart s))) in *.
  assert (Et : trimStart s = rev m ++ rev q').
  { rewrite <- (rev_involutive (trimStart s)), Er. by rewrite rev_app_distr. }
  exists p, (rev q'). split; [by rewrite <- Et|]. split; [done|].
  split; [|split].
  - rewrite forallb_forall in *. intros c Hc. apply Hq. by apply in_rev.
  - intros c Hc. destruct (rev m) as [|c0 t] eqn:Em; [done|].
    simpl in Hc. injection Hc as ->.
    apply (trimStart_head s c (t ++ rev q')). by rewrite Et.
  - intros c [l' El]%last_Some.
    apply (trimStart_head (rev (trimStart s)) c (rev l')).
    fold m. rewrite <- (rev_involutive m), El, rev_app_distr. done.
Qed.

(** [trim] leaves something exactly when some unit is not white space. *)
Lemma truthy_trim s :
  truthy (trim s) = existsb (λ c, negb (isWhiteSpace c)) s.
Proof.
  destruct (trim_split s) as (p & q & E & Hp & Hq & Hhead & _).
  rewrite E at 2. rewrite !existsb_app.
  assert (Hws : ∀ l, forallb isWhiteSpace l = true →
                     existsb (λ c, negb (isWhiteSpace c)) l = false).
  { induction l as [|c l IH]; simpl; [done|].
    intros [-> Hl]%andb_prop. simpl. auto. }
  rewrite (Hws p Hp), (Hws q Hq), orb_false_r. simpl.
  destruct (trim s) as [|c t]; [done|].
  simpl. by rewrite (Hhead c).
Qed.

Lemma length_trim s : (length (trim s) ≤ length s)%nat.
Proof.
  destruct (trim_split s) as (p & q & E & _).
  rewrite E at 2. rewrite !length_app. lia.
Qed.

End TrimFacts.

Section ValidationFacts.

Implicit Types s value : jsstring.

(** [parsePhoneToE164] never gives a lone ['+']: the second test of the
    phone branch of [validateField] never fires. *)
Lemma parsePhoneToE164_not_plus s : parsePhoneToE164 s ≠ js "+".
Proof.
  rewrite parsePhoneToE164_digits.
  by destruct (stripNonDigits s).
Qed.

Lemma stripNonDigits_idempotent s :
  stripNonDigits (stripNonDigits s) = stripNonDigits s.
Proof. apply stripNonDigits_id, stripNonDigits_all_digits. Qed.

(** The phone branch of [validateField] in terms of the digits. *)
Lemma validateField_phone_digits value :
  validateField f_phone_number value =
  match stripNonDigits value with
  | [] => Some (js "Phone number is required")
  | first :: rest =>
      if testE164 (43%N :: first :: rest) then None
      else Some (js "Enter a valid phone number")
  end.
Proof.
  unfold validateField.
  rewrite (bool_decide_false (parsePhoneToE164 value = js "+"))
    by apply parsePhoneToE164_not_plus.
  rewrite orb_false_r, parsePhoneToE164_digits.
  destruct (stripNonDigits value) as [|first rest]; [done|].
  change (length (first :: rest) =? 0)%nat with false. cbv iota.
  change (negb (truthy (43%N :: first :: rest))) with false. cbv iota.
  by destruct (testE164 _).
Qed.

Lemma validateField_phone_none value :
  validateField f_phone_number value = None ↔
  ∃ first rest, stripNonDigits value = first :: rest
    ∧ (49 ≤ first ≤ 57)%N ∧ (7 ≤ length (first :: rest) ≤ 15)%nat.
Proof.
  rewrite validateField_phone_digits.
  pose proof (stripNonDigits_all_digits value) as Hd.
  destruct (stripNonDigits value) as [|first rest].
  { split; [done|]. by intros (? & ? & ? & _). }
  destruct (testE164 (43%N :: first :: rest)) eqn:Ht.
  - split; [|done]. intros _.
    apply testE164_spec in Ht as (f & r & [= <- <-] & Hf & _ & Hl).
    exists first, rest. split; [done|]. split; [done|]. simpl. lia.
  - split; [done|]. intros (f & r & [= <- <-] & Hf & Hl).
    assert (testE164 (43%N :: first :: rest) = true); [|congruence].
    apply testE164_spec. exists first, rest. split; [done|]. split; [done|].
    simpl in Hd, Hl. apply andb_prop in Hd as [_ Hd]. split; [done|]. lia.
Qed.

(** X4. The phone field is judged by its digits alone: without a digit the
    number is "required"; with digits it passes exactly when the first is
    not 0 and there are 7 to 15 of them, and is "not valid" otherwise. *)
Theorem validateField_phone_cases value :
  (stripNonDigits value = [] →
     validateField f_phone_number value = Some (js "Phone number is required"))
  ∧ (validateField f_phone_number value = None ↔
       ∃ first rest, stripNonDigits value = first :: rest
         ∧ (49 ≤ first ≤ 57)%N ∧ (7 ≤ length (first :: rest) ≤ 15)%nat)
  ∧ (stripNonDigits value ≠ [] →
     validateField f_phone_number value ≠ None →
     validateField f_phone_number value = Some (js "Enter a valid phone number")).
Proof.
  split; [|split].
  - intros E. by rewrite validateField_phone_digits, E.
  - apply validateField_phone_none.
  - rewrite validateField_phone_digits.
    destruct (stripNonDigits value) as [|first rest]; [done|].
    intros _. by destruct (testE164 _).
Qed.

Lemma validateField_title_none value :
  validateField f_title value = None ↔
  existsb (λ c, negb (isWhiteSpace c)) value = true ∧ (length value ≤ 100)%nat.
Proof.
  unfold validateField. rewrite truthy_trim.
  destruct (existsb _ value); simpl.
  - destruct (Nat.ltb_spec 100 (length value)) as [Hlong|Hshort].
    + split; [done|]. intros [_ Hle]. lia.
    + split; [|done]. intros _. split; [done|lia].
  - split; [done|]. by intros [? _].
Qed.

Lemma validateField_message_none value :
  validateField f_message value = None ↔
  existsb (λ c, negb (isWhiteSpace c)) value = true.
Proof.
  unfold validateField. rewrite truthy_trim.
  by destruct (existsb _ value).
Qed.

(** X5. A title passes exactly when it holds a unit that is not white space
    and has at most 100 units (100 itself passes); a message passes exactly
    when it holds a unit that is not white space. Either error text is
    present otherwise. *)
Theorem validateField_text_cases value :
  (validateField f_title value = None ↔
     existsb (λ c, negb (isWhiteSpace c)) value = true ∧ (length value ≤ 100)%nat)
  ∧ (validateField f_message value = None ↔
     existsb (λ c, negb (isWhiteSpace c)) value = true)
  ∧ (forallb isWhiteSpace value = true →
     validateField f_title value = Some (js "Title is required")
     ∧ validateField f_message value = Some (js "Message is required")).
Proof.
  split; [apply validateField_title_none|].
  split; [apply validateField_message_none|].
  intros Hws. unfold validateField. rewrite truthy_trim.
  assert (E : existsb (λ c, negb (isWhiteSpace c)) value = false).
  { induction value as [|c l IH]; simpl in *; [done|].
    apply andb_prop in Hws as [-> Hl]. simpl. auto. }
  by rewrite E.
Qed.

End ValidationFacts.

Section SubmitFacts.
Context `{DateLib}.

Import FormMount.

Lemma validateForm_fields st now :
  validateForm st now = true →
  isError (validateField f_title (s_title st)) = false
  ∧ isError (validateField f_message (s_message st)) = false
  ∧ isError (orElse (validateField f_date (s_date st)) (validateDateTime st now)) = false
  ∧ isError (validateField f_time (s_time st)) = false.
Proof.
  unfold validateForm. rewrite negb_true_iff. simpl.
  rewrite !orb_false_iff. intros (Ht & Hm & _ & Hd & Hti & _). done.
Qed.

(** What [handleSubmit] sends when it sends. *)
Lemma handleSubmit_fields reminder st now m :
  handleSubmit reminder st now = Mutate m →
  validateForm st now = true
  ∧ submittedTitle m = Some (trim (s_title st))
  ∧ submittedMessage m = Some (trim (s_message st))
  ∧ submittedScheduledAt m = toISOString (newDate (dateTimeLiteral st))
  ∧ submittedTimezone m = Some (s_timezone st).
Proof.
  unfold handleSubmit. destruct (validateForm st now); [|done]. simpl.
  destruct (toISOString _) as [iso|]; [|done].
  destruct reminder; intros [= <-]; done.
Qed.

(** X6. The title and the message a submit sends are trimmed and not empty:
    each begins and ends with a unit that is not white space, and the title
    has at most 100 units. *)
Theorem submitted_text_trimmed reminder st now m :
  handleSubmit reminder st now = Mutate m →
  ∃ t msg,
    submittedTitle m = Some t ∧ submittedMessage m = Some msg
    ∧ t = trim (s_title st) ∧ msg = trim (s_message st)
    ∧ t ≠ [] ∧ msg ≠ [] ∧ (length t ≤ 100)%nat
    ∧ (∀ c, head t = Some c ∨ last t = Some c → isWhiteSpace c = false)
    ∧ (∀ c, head msg = Some c ∨ last msg = Some c → isWhiteSpace c = false).
Proof.
  intros Hm. apply handleSubmit_fields in Hm as (Hv & Ht & Hmsg & _).
  apply validateForm_fields in Hv as (Hvt & Hvm & _).
  exists (trim (s_title st)), (trim (s_message st)).
  assert (Htitle : validateField f_title (s_title st) = None).
  { revert Hvt. unfold validateField.
    destruct (negb _); [done|]. by destruct (_ <? _)%nat. }
  assert (Hmessage : validateField f_message (s_message st) = None).
  { revert Hvm. unfold validateField. by destruct (negb _). }
  apply validateField_title_none in Htitle as [Ht1 Ht2].
  apply validateField_message_none in Hmessage.
  rewrite <- truthy_trim in Ht1, Hmessage.
  destruct (trim_split (s_title st)) as (_ & _ & _ & _ & _ & Hh1 & Hl1).
  destruct (trim_split (s_message st)) as (_ & _ & _ & _ & _ & Hh2 & Hl2).
  split; [done|]. split; [done|]. split; [done|]. split; [done|].
  split; [by destruct (trim (s_title st))|].
  split; [by destruct (trim (s_message st))|].
  split; [pose proof (length_trim (s_title st)); lia|].
  split; intros c [Hc|Hc]; auto.
Qed.

(** Every error text is non-empty: a field is in error exactly when
    [validateField] returns a text. *)
Lemma isError_validateField field value :
  isError (validateField field value) = false ↔ validateField field value = None.
Proof.
  destruct field; unfold validateField;
    repeat match goal with
           | |- context [if ?b then _ else _] => destruct b
           end; done.
Qed.

(** The date branch of the validation when both fields are filled. *)
Lemma validateDateTime_filled st now :
  truthy (s_date st) = true → truthy (s_time st) = true →
  validateDateTime st now =
  if dateLe (newDate (dateTimeLiteral st)) (Some now)
  then Some (js "Scheduled time must be in the future") else None.
Proof. intros Hd Ht. unfold validateDateTime. by rewrite Hd, Ht. Qed.

(** X7. When [toISOString] throws on an Invalid Date, as it does. A submit
    sends only a date that parsed and lies strictly after the clock read by
    the validation, and it sends that date's ISO text and the form's own
    time zone. A date text that does not parse is never reported by
    [validateDateTime], whatever the clock; so a form whose other fields are
    valid passes [validateForm] with it, and the submit then ends in the
    exception of [toISOString]: neither blocked nor sent. *)
Theorem submitted_date_in_future reminder st now :
  toISOString None = None →
  (∀ m, handleSubmit reminder st now = Mutate m →
     ∃ t, newDate (dateTimeLiteral st) = Some t ∧ now < t
       ∧ submittedScheduledAt m = toISOString (Some t)
       ∧ submittedTimezone m = Some (s_timezone st))
  ∧ (newDate (dateTimeLiteral st) = None →
       validateDateTime st now = None
       ∧ (validateForm st now = true ↔
            validateField f_title (s_title st) = None
            ∧ validateField f_message (s_message st) = None
            ∧ validateField f_phone_number (phoneDisplay st) = None
            ∧ s_date st ≠ [] ∧ s_time st ≠ [])
       ∧ (validateForm st now = true → handleSubmit reminder st now = Threw)
       ∧ (validateForm st now = false → handleSubmit reminder st now = Blocked)).
Proof.
  intros Hiso. split.
  - intros m Hm.
    pose proof Hm as (Hv & _ & _ & Hat & Htz)%handleSubmit_fields.
    apply validateForm_fields in Hv as (_ & _ & Hd & Hti).
    destruct (newDate (dateTimeLiteral st)) as [t|] eqn:Et.
    + exists t. split; [done|]. split; [|done].
      assert (Htime : truthy (s_time st) = true).
      { revert Hti. unfold validateField. by destruct (truthy (s_time st)). }
      assert (Hdate : truthy (s_date st) = true).
      { revert Hd. unfold validateField. by destruct (truthy (s_date st)). }
      revert Hd. unfold validateField.
      rewrite validateDateTime_filled, Et, Hdate by done. simpl.
      destruct (Z.leb_spec t now); [done|]. intros _. lia.
    + unfold handleSubmit in Hm. rewrite Et, Hiso in Hm.
      by destruct (validateForm st now).
  - intros Et.
    assert (Hdt : validateDateTime st now = None).
    { unfold validateDateTime. rewrite Et. simpl. by destruct (_ || _). }
    split; [done|]. split; [|split].
    + unfold validateForm, formErrors.
      cbn [e_title e_message e_phone_number e_date e_time existsb].
      rewrite Hdt, negb_true_iff, !orb_false_iff.
      rewrite !isError_validateField.
      assert (Hdate : isError (orElse (validateField f_date (s_date st)) None) = false
                      ↔ s_date st ≠ []).
      { unfold validateField. by destruct (s_date st). }
      assert (Htime : validateField f_time (s_time st) = None ↔ s_time st ≠ []).
      { unfold validateField. by destruct (s_time st). }
      rewrite Hdate, Htime. tauto.
    + intros Hv. unfold handleSubmit. by rewrite Hv, Et, Hiso.
    + intros Hv. unfold handleSubmit. by rewrite Hv.
Qed.

(** X8. A reminder whose stored number is valid and has at most eleven
    digits opens in the edit form with a phone field that passes validation
    and parses back to the stored number. *)
Theorem edit_form_keeps_phone (r : Reminder) :
  testE164 (phone_number r) = true →
  (length (phone_number r) ≤ 12)%nat →
  parsePhoneToE164 (initialPhoneDisplay (Some r)) = phone_number r
  ∧ validateField f_phone_number (initialPhoneDisplay (Some r)) = None.
Proof.
  intros Ht Hlen.
  pose proof Ht as (first & rest & Ep & Hf & Hd & Hl)%testE164_spec.
  assert (Hdigits : stripNonDigits (phone_number r) = first :: rest).
  { rewrite Ep. change (43%N :: first :: rest) with ([43%N] ++ first :: rest).
    rewrite stripNonDigits_app.
    change (stripNonDigits [43%N]) with (@nil N). rewrite app_nil_l.
    apply stripNonDigits_id. cbn [forallb].
    rewrite Hd, andb_true_r. unfold isDigit.
    apply andb_true_intro. split; apply N.leb_le; lia. }
  assert (Hshown : stripNonDigits (initialPhoneDisplay (Some r)) = first :: rest).
  { unfold initialPhoneDisplay. rewrite Ep at 1. simpl truthy. cbv iota.
    rewrite formatPhoneDisplay_digits, Hdigits.
    apply take_ge. rewrite Ep in Hlen. simpl in *. lia. }
  split.
  - rewrite parsePhoneToE164_digits, Hshown. by rewrite Ep.
  - apply validateField_phone_none.
    exists first, rest. split; [done|]. split; [done|]. simpl. lia.
Qed.

End SubmitFacts.

(* ===================================================================== *)
(** * Further properties of the card                                       *)
(* ===================================================================== *)

Section MaskMore.

Implicit Types s phone : jsstring.

(** What the mask does to one unit it hides. *)
Definition hideDigit (c : N) : N := if isDigit c then bullet else c.

Lemma isDigit_isDot c : isDigit c = true → isDot c = true.
Proof.
  unfold isDigit, isDot, isLineTerminator.
  intros [H1%N.leb_le H2%N.leb_le]%andb_prop.
  destruct (N.eqb_spec c 10); [lia|]. destruct (N.eqb_spec c 13); [lia|].
  destruct (N.eqb_spec c 8232); [lia|]. by destruct (N.eqb_spec c 8233); [lia|].
Qed.

(** Without a line terminator in sight the lookahead only counts. *)
Lemma lookahead4_no_terminator s :
  forallb isDot s = true → lookahead4 s = (4 <=? length s)%nat.
Proof.
  intros Hs. unfold lookahead4. rewrite (forallb_take _ 4 s Hs).
  apply andb_true_r.
Qed.

Lemma replaceMasked_no_terminator s :
  forallb isDot s = true →
  replaceMasked s = (hideDigit <$> take (length s - 4) s) ++ drop (length s - 4) s.
Proof.
  induction s as [|c s IH]; [done|].
  intros [Hc Hs]%andb_prop. cbn [replaceMasked].
  rewrite (lookahead4_no_terminator s Hs), (IH Hs).
  destruct (Nat.leb_spec 4 (length s)) as [Hlong|Hshort].
  - replace (length (c :: s) - 4)%nat with (S (length s - 4)) by (simpl; lia).
    cbn [take drop fmap list_fmap app]. unfold hideDigit at 2.
    by rewrite andb_true_r.
  - replace (length (c :: s) - 4)%nat with 0%nat by (simpl; lia).
    replace (length s - 4)%nat with 0%nat by lia.
    cbn [take drop fmap list_fmap app]. by rewrite andb_false_r.
Qed.

Lemma maskPhone_no_terminator phone :
  forallb isDot phone = true →
  maskPhone phone
  = (hideDigit <$> take (length phone - 8) phone) ++ drop (length phone - 8) phone.
Proof.
  intros Hdot.
  destruct (decide (length phone ≤ 6)%nat) as [Hle|Hgt].
  { unfold maskPhone. destruct (Nat.leb_spec (length phone) 6); [|lia].
    replace (length phone - 8)%nat with 0%nat by lia. done. }
  rewrite maskPhone_long by lia.
  rewrite replaceMasked_no_terminator by (by apply forallb_take).
  rewrite length_take, take_take, <- app_assoc.
  replace (min (length phone - 4) (length phone) - 4)%nat
    with (length phone - 8)%nat by lia.
  rewrite Nat.min_l by lia. f_equal.
  rewrite <- (drop_take_drop phone (length phone - 8) (length phone - 4)) by lia.
  done.
Qed.

(** X9. On a phone text without line terminators the mask is exact: every
    digit before the last eight units becomes a bullet, and every other unit,
    the last eight included, is kept; so a text of at most eight units is
    shown in full. *)
Theorem maskPhone_exact phone :
  forallb isDot phone = true →
  maskPhone phone
  = (hideDigit <$> take (length phone - 8) phone) ++ drop (length phone - 8) phone
  ∧ ((length phone ≤ 8)%nat → maskPhone phone = phone).
Proof.
  intros Hdot. split; [by apply maskPhone_no_terminator|].
  intros Hlen. rewrite maskPhone_no_terminator by done.
  by replace (length phone - 8)%nat with 0%nat by lia.
Qed.

Lemma hideDigit_digits (l : list N) :
  forallb isDigit l = true → hideDigit <$> l = replicate (length l) bullet.
Proof.
  induction l as [|c l IH]; simpl; [done|].
  intros [Hc Hl]%andb_prop. unfold hideDigit at 1. rewrite Hc. f_equal. auto.
Qed.

(** X11. A number the form accepts, ['+'] and 7 to 15 digits, is shown as
    the ['+'], one bullet for every digit before the last eight, and the last
    eight digits in clear; with 7 or 8 digits nothing at all is hidden. *)
Theorem maskPhone_e164_shows_last_eight phone :
  testE164 phone = true →
  maskPhone phone
  = 43%N :: replicate (length phone - 9) bullet
      ++ drop (max 1 (length phone - 8)) phone
  ∧ ((length phone ≤ 9)%nat → maskPhone phone = phone).
Proof.
  intros (first & rest & -> & Hf & Hd & Hl)%testE164_spec.
  assert (Hfirst : isDigit first = true).
  { unfold isDigit. apply andb_true_intro. split; apply N.leb_le; lia. }
  assert (Hdot : forallb isDot (43%N :: first :: rest) = true).
  { cbn [forallb]. rewrite (isDigit_isDot first Hfirst).
    change (isDot 43) with true. simpl.
    clear -Hd. induction rest as [|c l IH]; simpl in *; [done|].
    apply andb_prop in Hd as [Hc Hd]. by rewrite (isDigit_isDot c Hc), IH. }
  assert (E : maskPhone (43%N :: first :: rest)
              = 43%N :: replicate (length (43%N :: first :: rest) - 9) bullet
                  ++ drop (max 1 (length (43%N :: first :: rest) - 8))
                       (43%N :: first :: rest)).
  { rewrite maskPhone_no_terminator by done.
    cbn [length]. destruct (decide (length rest = 6)%nat) as [E6|Hne].
    - rewrite E6. done.
    - replace (S (S (length rest)) - 8)%nat with (S (length rest - 7)) by lia.
      replace (S (S (length rest)) - 9)%nat with (length rest - 7)%nat by lia.
      rewrite Nat.max_r by lia.
      cbn [take fmap list_fmap app]. change (hideDigit 43) with 43%N. f_equal.
      change (list_fmap N N hideDigit) with (fmap (M:=list) hideDigit).
      rewrite hideDigit_digits.
      + rewrite length_take. cbn [length]. f_equal. f_equal. lia.
      + apply forallb_take. cbn [forallb]. by rewrite Hfirst, Hd. }
  split; [done|].
  intros Hlen. rewrite E. cbn [length] in *.
  replace (S (S (length rest)) - 9)%nat with 0%nat by lia.
  destruct (decide (length rest = 6)%nat) as [E6|Hne].
  - rewrite E6. done.
  - replace (S (S (length rest)) - 8)%nat with 1%nat by lia. done.
Qed.

Lemma hideDigit_dot c b :
  isDot (if isDigit c && b then bullet else c) = isDot c.
Proof.
  destruct (isDigit c) eqn:Hc; [|done].
  destruct b; [|done]. simpl. by rewrite (isDigit_isDot c Hc).
Qed.

Lemma forallb_dot_replaceMasked s (n : nat) :
  forallb isDot (take n (replaceMasked s)) = forallb isDot (take n s).
Proof.
  revert n. induction s as [|c s IH]; intros [|n]; simpl; try done.
  by rewrite hideDigit_dot, IH.
Qed.

Lemma replaceMasked_idempotent s :
  replaceMasked (replaceMasked s) = replaceMasked s.
Proof.
  induction s as [|c s IH]; simpl; [done|].
  rewrite IH. f_equal.
  assert (El : lookahead4 (replaceMasked s) = lookahead4 s).
  { unfold lookahead4. by rewrite length_replaceMasked, forallb_dot_replaceMasked. }
  rewrite El.
  destruct (isDigit c && lookahead4 s) eqn:E; [done|]. by rewrite E.
Qed.

(** X10. Masking a masked text changes nothing, whatever the text. *)
Theorem maskPhone_idempotent phone :
  maskPhone (maskPhone phone) = maskPhone phone.
Proof.
  destruct (decide (length phone ≤ 6)%nat) as [Hle|Hgt].
  { assert (E : maskPhone phone = phone).
    { unfold maskPhone. by destruct (Nat.leb_spec (length phone) 6); [|lia]. }
    by rewrite !E. }
  rewrite (maskPhone_long (maskPhone phone)) by (rewrite length_maskPhone; lia).
  rewrite length_maskPhone, maskPhone_long by lia.
  set (m := (length phone - 4)%nat).
  assert (Hm : length (replaceMasked (take m phone)) = m).
  { rewrite length_replaceMasked, length_take. lia. }
  rewrite take_app_length' by done.
  rewrite drop_app_length' by done.
  by rewrite replaceMasked_idempotent.
Qed.

End MaskMore.

Section BannerFacts.
Context `{DateLib}.

Lemma ReminderCard_view r timeLeft open v :
  ReminderCard r timeLeft open = Some v →
  v_countdown v = countdownBanner r timeLeft
  ∧ v_error v = errorBanner r
  ∧ v_actions v = actions r
  ∧ v_badge v = statusLabel (status r)
  ∧ v_phone v = maskPhone (phone_number r)
  ∧ v_editDialog v = open.
Proof.
  unfold ReminderCard.
  destruct (format _ _); [|done]. destruct (format _ _); [|done].
  by intros [= <-].
Qed.

(** X12. Whatever the countdown state, a rendered card shows the countdown
    banner only for a scheduled reminder and the error banner only for a
    failed one with a non-empty error message, never both; a completed
    reminder shows neither and has Delete as its only action. *)
Theorem card_banners_by_status r timeLeft open v :
  ReminderCard r timeLeft open = Some v →
  (is_Some (v_countdown v) → status r = scheduled)
  ∧ (is_Some (v_error v) →
       status r = failed ∧ v_error v = error_message r ∧ v_error v ≠ Some [])
  ∧ ¬ (is_Some (v_countdown v) ∧ is_Some (v_error v))
  ∧ (status r = completed →
       v_countdown v = None ∧ v_error v = None ∧ v_actions v = [DeleteButton]).
Proof.
  intros (-> & -> & -> & _)%ReminderCard_view.
  unfold countdownBanner, errorBanner, actions.
  destruct (status r) eqn:Hs; simpl.
  - split; [done|]. split; [by intros [? ?]|]. split; [by intros [_ [? ?]]|done].
  - split; [by intros [? ?]|]. split; [by intros [? ?]|].
    split; [by intros [[? ?] _]|done].
  - split; [by intros [? ?]|]. split.
    + destruct (error_message r) as [e|]; [|by intros [? ?]].
      destruct e as [|c e]; [by intros [? ?]|]. simpl. done.
    + split; [by intros [[? ?] _]|done].
Qed.



End BannerFacts.

(* ===================================================================== *)
(** * The list and its query                                               *)
(* ===================================================================== *)

Section ListFacts.

Import ListView ApiClient.

Variable toLowerCase : jsstring → jsstring.

Implicit Types (reminders rs : list Reminder) (searchQuery : jsstring).

Lemma filter_sublist {A} (f : A → bool) (l : list A) : sublist (List.filter f l) l.
Proof.
  induction l as [|x l IH]; simpl; [constructor|].
  destruct (f x); by constructor.
Qed.

(** X14. The search keeps the order of the fetched list and only drops
    entries; a search text of white space alone drops nothing; every entry
    kept by another text has the lower-cased text in its lower-cased title
    or message. *)
Theorem filteredReminders_sublist reminders searchQuery :
  sublist (filteredReminders toLowerCase reminders searchQuery) reminders
  ∧ (forallb isWhiteSpace searchQuery = true →
       filteredReminders toLowerCase reminders searchQuery = reminders)
  ∧ (forallb isWhiteSpace searchQuery = false →
       ∀ r, r ∈ filteredReminders toLowerCase reminders searchQuery ↔
            r ∈ reminders
            ∧ matchesSearch toLowerCase (toLowerCase searchQuery) r = true).
Proof.
  unfold filteredReminders. rewrite truthy_trim.
  assert (E : existsb (λ c, negb (isWhiteSpace c)) searchQuery
              = negb (forallb isWhiteSpace searchQuery)).
  { induction searchQuery as [|c l IH]; simpl; [done|].
    rewrite IH. by destruct (isWhiteSpace c). }
  rewrite E, negb_involutive.
  destruct (forallb isWhiteSpace searchQuery); simpl.
  - split; [done|]. split; done.
  - split; [apply filter_sublist|]. split; [done|].
    intros _ r. rewrite !list_elem_of_In, filter_In. done.
Qed.

Lemma length_filter_status rs :
  length rs
  = (length (List.filter (hasStatus scheduled) rs)
     + length (List.filter (hasStatus completed) rs)
     + length (List.filter (hasStatus failed) rs))%nat.
Proof.
  induction rs as [|r rs IH]; [done|]. cbn [List.filter].
  destruct (hasStatus scheduled r) eqn:E1, (hasStatus completed r) eqn:E2,
           (hasStatus failed r) eqn:E3;
    unfold hasStatus in E1, E2, E3; destruct (status r);
    compute in E1, E2, E3; try discriminate; cbn [length]; lia.
Qed.

(** X15. The tab counters add up: the "All" counter is the sum of the
    Scheduled, Completed and Failed counters. *)
Theorem statusCounts_add_up reminders :
  n_all (statusCounts reminders)
  = (n_scheduled (statusCounts reminders)
     + n_completed (statusCounts reminders)
     + n_failed (statusCounts reminders))%nat.
Proof. apply length_filter_status. Qed.

(** X16. What the list shows. A grid is never empty and holds exactly the
    filtered reminders. The "no reminders yet" invitation appears only when
    nothing was fetched and the search box is empty. A "no matches" message
    always quotes the non-empty search text: the branch that would quote the
    status tab cannot be reached. *)
Theorem ReminderList_content onCreateClick statusFilter searchQuery q counts :
  (∀ rs, ReminderList toLowerCase onCreateClick statusFilter searchQuery q
         = listPage counts (cardGrid rs) →
     rs ≠ []
     ∧ rs = filteredReminders toLowerCase (default [] (data q)) searchQuery)
  ∧ (∀ b, ReminderList toLowerCase onCreateClick statusFilter searchQuery q
          = listPage counts (emptyState (noReminders b)) →
     default [] (data q) = [] ∧ searchQuery = [] ∧ b = onCreateClick)
  ∧ (∀ text, ReminderList toLowerCase onCreateClick statusFilter searchQuery q
             = listPage counts (emptyState (noResults text)) →
     text = searchQuery ∧ searchQuery ≠ []
     ∧ filteredReminders toLowerCase (default [] (data q)) searchQuery = []).
Proof.
  unfold ReminderList.
  destruct (isError q); [by repeat split|].
  destruct (isLoading q); [by repeat split|].
  set (reminders := default [] (data q)).
  destruct (filteredReminders toLowerCase reminders searchQuery) as [|r0 l] eqn:Ef.
  - simpl. destruct searchQuery as [|c s] eqn:Eq; simpl.
    + assert (reminders = []) as ->.
      { revert Ef. unfold filteredReminders. done. }
      simpl. split; [done|]. split; [by intros b [= _ <-]|done].
    + split; [done|]. split; [done|]. by intros text [= _ <-].
  - simpl. split; [|done]. by intros rs [= _ <-].
Qed.

(** One optional entry of the query. *)
Definition entryIf (name : jsstring) (keep : jsstring → bool)
    (value : option jsstring) : list (jsstring * jsstring) :=
  match value with
  | Some v => if keep v then [(name, v)] else []
  | None => []
  end.

(** The entries of [getReminders], one optional entry per name. *)
Lemma getRemindersEntries_form params :
  getRemindersEntries params
  = entryIf (js "status") (λ v, truthy v && negb (bool_decide (v = js "all")))
      (params ≫= p_status)
    ++ entryIf (js "search") truthy (params ≫= p_search)
    ++ entryIf (js "sort_by") truthy (params ≫= p_sort_by)
    ++ entryIf (js "sort_order") truthy (params ≫= p_sort_order).
Proof.
  destruct params as [[st se sb so]|]; [|done].
  unfold getRemindersEntries, setIfTruthy, entryIf. simpl.
  destruct st as [v1|];
    [destruct (truthy v1); [destruct (bool_decide (v1 = js "all"))|]|];
  (destruct se as [v2|]; [destruct (truthy v2)|]);
  (destruct sb as [v3|]; [destruct (truthy v3)|]);
  (destruct so as [v4|]; [destruct (truthy v4)|]);
  by vm_compute.
Qed.

Lemma entryIf_values name keep value :
  (∀ v, keep v = true → v ≠ []) →
  Forall (λ e, e.2 ≠ []) (entryIf name keep value).
Proof.
  intros Hk. unfold entryIf. destruct value as [v|]; [|done].
  destruct (keep v) eqn:E; [|done]. constructor; [by apply Hk|done].
Qed.

Lemma entryIf_elem name keep value e :
  e ∈ entryIf name keep value → e.1 = name ∧ keep e.2 = true.
Proof.
  unfold entryIf. destruct value as [v|]; [|by intros ?%elem_of_nil].
  destruct (keep v) eqn:E; [|by intros ?%elem_of_nil].
  by intros ->%list_elem_of_singleton.
Qed.

Lemma entryIf_names name keep value :
  fst <$> entryIf name keep value = []
  ∨ fst <$> entryIf name keep value = [name].
Proof.
  unfold entryIf. destruct value as [v|]; [|by left].
  destruct (keep v); [by right|by left].
Qed.

Lemma truthy_nonempty (v : jsstring) : truthy v = true → v ≠ [].
Proof. by destruct v. Qed.

(** X17. [getReminders] never sends a parameter with an empty value and
    never sends [status=all]; the names it sends are distinct and come in
    the order status, search, sort_by, sort_order. For the list's own call
    that is the selected status, if any, then [sort_by=scheduled_at] and
    [sort_order=asc], and never a search parameter. *)
Theorem getRemindersEntries_sound params :
  Forall (λ e, e.2 ≠ []) (getRemindersEntries params)
  ∧ ((js "status", js "all") ∉ getRemindersEntries params)
  ∧ sublist ((getRemindersEntries params).*1)
      [js "status"; js "search"; js "sort_by"; js "sort_order"]
  ∧ ∀ f, getRemindersEntries (Some (listParams f))
         = match f with
           | all => []
           | only s => [(js "status", statusText s)]
           end ++ [(js "sort_by", js "scheduled_at"); (js "sort_order", js "asc")].
Proof.
  rewrite getRemindersEntries_form.
  split; [|split; [|split]].
  - rewrite !Forall_app. repeat split; apply entryIf_values;
      try apply truthy_nonempty.
    intros v [Hv _]%andb_prop. by apply truthy_nonempty.
  - rewrite !elem_of_app.
    intros [Hin|[Hin|[Hin|Hin]]]; apply entryIf_elem in Hin as [Hname Hkeep];
      simpl in *; discriminate.
  - rewrite !fmap_app.
    destruct (entryIf_names (js "status")
                (λ v, truthy v && negb (bool_decide (v = js "all")))
                (params ≫= p_status)) as [-> | ->];
    destruct (entryIf_names (js "search") truthy (params ≫= p_search)) as [-> | ->];
    destruct (entryIf_names (js "sort_by") truthy (params ≫= p_sort_by)) as [-> | ->];
    destruct (entryIf_names (js "sort_order") truthy (params ≫= p_sort_order))
      as [-> | ->];
    simpl; repeat first [apply sublist_nil | apply sublist_skip | apply sublist_cons].
  - intros f. rewrite getRemindersEntries_form. by destruct f as [|[]].
Qed.

End ListFacts.

(* ===================================================================== *)
(** * Worked instances of the further properties                           *)
(* ===================================================================== *)

Section MoreInstances.

Import FormMount.

(** The form of [fixtureForm] sends its title and message as typed: they
    carry no outer white space. *)
Lemma submitted_text_trimmed_witness :
  ∃ m, @handleSubmit fixtureDates None fixtureForm 1700000000000 = Mutate m
    ∧ submittedTitle m = Some (js "Dentist")
    ∧ submittedMessage m = Some (js "Bring the insurance card").
Proof.
  eexists. split; [vm_compute; reflexivity|].
  destruct (@submitted_text_trimmed fixtureDates None fixtureForm 1700000000000 _
              eq_refl) as (t & msg & Ht & Hmsg & -> & -> & _).
  split; [exact Ht|exact Hmsg].
Defined.

(** Dates that never parse: [new Date] gives an Invalid Date, on which
    [toISOString] throws. *)
Definition fixtureNoDates : DateLib :=
  {| newDate := λ _, None;
     toISOString := λ d, match d with
                         | Some _ => Some (js "2033-05-18T03:33:20.000Z")
                         | None => None
                         end;
     toZonedTime := λ d _, d;
     format := λ d pattern, match d with Some _ => Some pattern | None => None end;
     formatDistanceToNow := λ _ _, None |}.

(** With the stand-in dates the form's instant is 2000000000000, after the
    clock 1700000000000, and the form is sent; when the same text does not
    parse the form passes the validation and the submit throws. *)
Lemma submitted_date_in_future_witness :
  @toISOString fixtureDates None = None
  ∧ (∃ m, @handleSubmit fixtureDates None fixtureForm 1700000000000 = Mutate m
      ∧ ∃ t, @newDate fixtureDates (@dateTimeLiteral fixtureForm) = Some t
          ∧ 1700000000000 < t
          ∧ submittedScheduledAt m = @toISOString fixtureDates (Some t)
          ∧ submittedTimezone m = Some (s_timezone fixtureForm))
  ∧ @toISOString fixtureNoDates None = None
  ∧ @validateForm fixtureNoDates fixtureForm 1700000000000 = true
  ∧ @handleSubmit fixtureNoDates None fixtureForm 1700000000000 = Threw.
Proof.
  split; [reflexivity|]. split.
  { eexists. split; [vm_compute; reflexivity|].
    apply (proj1 (@submitted_date_in_future fixtureDates None fixtureForm
                    1700000000000 eq_refl)).
    vm_compute. reflexivity. }
  split; [reflexivity|].
  assert (Hv : @validateForm fixtureNoDates fixtureForm 1700000000000 = true)
    by (vm_compute; reflexivity).
  split; [exact Hv|].
  destruct (proj2 (@submitted_date_in_future fixtureNoDates None fixtureForm
                     1700000000000 eq_refl) eq_refl) as (_ & _ & Hthrow & _).
  exact (Hthrow Hv).
Defined.

Lemma edit_form_keeps_phone_witness :
  testE164 (phone_number fixtureReminder) = true
  ∧ (length (phone_number fixtureReminder) ≤ 12)%nat
  ∧ parsePhoneToE164 (initialPhoneDisplay (Some fixtureReminder))
    = phone_number fixtureReminder
  ∧ validateField f_phone_number (initialPhoneDisplay (Some fixtureReminder)) = None.
Proof.
  assert (H1 : testE164 (phone_number fixtureReminder) = true) by reflexivity.
  assert (H2 : (length (phone_number fixtureReminder) ≤ 12)%nat) by (simpl; lia).
  split; [exact H1|]. split; [exact H2|].
  exact (edit_form_keeps_phone fixtureReminder H1 H2).
Defined.

(** A display text of seventeen units: the punctuation stays, the three
    digits before the last eight units are hidden. *)
Lemma maskPhone_exact_witness :
  forallb isDot (js "+1 (555) 123-4567") = true
  ∧ maskPhone (js "+1 (555) 123-4567")
    = (hideDigit <$> take 9 (js "+1 (555) 123-4567")) ++ js "123-4567".
Proof.
  split; [reflexivity|].
  exact (proj1 (maskPhone_exact (js "+1 (555) 123-4567") eq_refl)).
Defined.

Lemma maskPhone_e164_shows_last_eight_witness :
  testE164 (js "+15551234567") = true
  ∧ maskPhone (js "+15551234567")
    = 43%N :: replicate 3 bullet ++ js "51234567".
Proof.
  split; [reflexivity|].
  exact (proj1 (maskPhone_e164_shows_last_eight (js "+15551234567") eq_refl)).
Defined.

(** The card of [fixtureReminder] with the stand-in dates, rendered after
    the effect ran one millisecond after the reminder's instant. *)
Definition fixtureView : CardView :=
  {| v_title := js "Dentist"; v_message := js "Bring the card";
     v_badge := js "Scheduled";
     v_date := js "MMM d, yyyy"; v_time := js "h:mm a";
     v_phone := js "+" ++ [bullet; bullet; bullet] ++ js "51234567";
     v_countdown := Some (js "Processing...");
     v_error := None;
     v_actions := [EditButton; DeleteButton];
     v_editDialog := false |}.

Lemma fixtureView_rendered :
  @ReminderCard fixtureDates fixtureReminder (js "Processing...") false
  = Some fixtureView.
Proof. vm_compute. reflexivity. Defined.

Lemma card_banners_by_status_witness :
  @ReminderCard fixtureDates fixtureReminder (js "Processing...") false
  = Some fixtureView
  ∧ (is_Some (v_countdown fixtureView) → Api.status fixtureReminder = scheduled)
  ∧ ¬ (is_Some (v_countdown fixtureView) ∧ is_Some (v_error fixtureView)).
Proof.
  split; [exact fixtureView_rendered|].
  pose proof (@card_banners_by_status fixtureDates fixtureReminder
                (js "Processing...") false fixtureView fixtureView_rendered)
    as (Hc & _ & Hnot & _).
  split; [exact Hc|exact Hnot].
Defined.


End MoreInstances.
